(** * AWS study guide: the page script [src/aws/script.js]

    A shallow embedding of the script's controllers (content loader,
    section navigator, image modal, card toggle) over an explicit model
    of the part of the browser state they read and write, followed by
    the properties of the specification.

    Browser state is threaded explicitly: every handler is a function
    from the state before the call to the state after it.  A handler
    that can raise returns a [Completion].  The browser's selector engine
    and HTML parser are parameters of the content loader. *)

From Stdlib Require Import Ascii String.
From stdpp Require Import gmap strings list pretty.

Open Scope string_scope.

(** ** Constants of the script *)

Definition SECTION_IDS : list string :=
  [ "compute"; "networking"; "storage"; "database";
    "serverless"; "analytics"; "security"; "devops"; "cost" ].

Definition DEFAULT_SECTION : string := "compute".

(** ** Strings *)

(** [s.slice(1)] *)
Definition slice1 (s : string) : string :=
  match s with
  | EmptyString => EmptyString
  | String _ rest => rest
  end.

(** [SECTION_IDS.includes(x)] *)
Definition includes (l : list string) (x : string) : bool :=
  bool_decide (x ∈ l).

(** Truthiness of a string: only the empty string is falsy. *)
Definition truthy (s : string) : bool :=
  match s with
  | EmptyString => false
  | String _ _ => true
  end.

(** [a || b] on strings *)
Definition or_else (a b : string) : string :=
  if truthy a then a else b.

(** ** Elements *)

(** [classList.toggle(c, force)] *)
Definition classList_toggle (c : string) (force : bool) (cl : gset string)
  : gset string :=
  if force then cl ∪ {[ c ]} else cl ∖ {[ c ]}.

(** A section container, [<section id="block-...">]: its class list and
    its [hidden] property. *)
Record Block := mkBlock {
  block_classList : gset string;
  block_hidden : bool
}.

(** An element of the nav container matching [.nav-link[data-section]]. *)
Record NavLink := mkNavLink {
  link_section : string;
  link_classList : gset string
}.

(** The elements the navigator's loop reads and writes.  [blocks] is
    [document.getElementById] restricted to the section containers, keyed
    by element id; [nav] is the [#nav] element ([None] when the page has
    none) with its links in document order.  Section containers and nav
    links are distinct elements. *)
Record NavDom := mkNavDom {
  blocks : gmap string Block;
  nav : option (list NavLink)
}.

(** [`block-${id}`] *)
Definition block_id (id : string) : string := "block-" +:+ id.

(** [nav.querySelector(`.nav-link[data-section="${id}"]`)]: the first
    link, in document order, whose [data-section] is [id], with its
    position. *)
Definition querySelector_link (id : string) (links : list NavLink)
  : option (nat * NavLink) :=
  list_find (λ l, link_section l = id) links.

Definition set_link_class (f : gset string → gset string) (l : NavLink)
  : NavLink :=
  mkNavLink (link_section l) (f (link_classList l)).

(** ** Window: location and session history *)

Record URL := mkURL {
  url_pathname : string;
  url_search : string;
  url_hash : string
}.

(** The session history as a zipper around the current entry;
    [window.location] is the URL of the current entry. *)
Record History := mkHistory {
  history_back : list URL;
  history_current : URL;
  history_forward : list URL
}.

(** Splits [s] at the first occurrence of [c]. *)
Fixpoint split_at (c : ascii) (s : string) : string * option string :=
  match s with
  | EmptyString => (EmptyString, None)
  | String a rest =>
      if decide (a = c) then (EmptyString, Some rest)
      else let '(before, after) := split_at c rest in (String a before, after)
  end.

(** The getter of [location.search] and [location.hash]: empty when the
    component is absent or empty, otherwise led by its delimiter. *)
Definition url_component (delim : string) (part : option string) : string :=
  match part with
  | Some (String a rest) => delim +:+ String a rest
  | _ => EmptyString
  end.

(** A C0 control or a space: the URL parser strips them from both ends
    of its input. *)
Definition is_c0_or_space (a : ascii) : bool := (N_of_ascii a <=? 32)%N.

(** A tab or a newline: the URL parser removes them wherever they are. *)
Definition is_tab_or_newline (a : ascii) : bool :=
  ((N_of_ascii a =? 9)%N || (N_of_ascii a =? 10)%N || (N_of_ascii a =? 13)%N)%bool.

Fixpoint strip_leading (s : string) : string :=
  match s with
  | EmptyString => EmptyString
  | String a rest => if is_c0_or_space a then strip_leading rest else s
  end.

Fixpoint strip_trailing (s : string) : string :=
  match s with
  | EmptyString => EmptyString
  | String a rest =>
      match strip_trailing rest with
      | EmptyString => if is_c0_or_space a then EmptyString else String a EmptyString
      | String b rest' => String a (String b rest')
      end
  end.

Fixpoint remove_tab_newline (s : string) : string :=
  match s with
  | EmptyString => EmptyString
  | String a rest =>
      if is_tab_or_newline a then remove_tab_newline rest
      else String a (remove_tab_newline rest)
  end.

(** The fragment percent-encode set, on the bytes of the UTF-8 form:
    C0 controls, space, the double quote, [<], [>], the backquote, and
    every byte above [~]. *)
Definition in_fragment_encode_set (a : ascii) : bool :=
  ((N_of_ascii a <=? 32)%N || (126 <? N_of_ascii a)%N
   || (N_of_ascii a =? 34)%N || (N_of_ascii a =? 60)%N
   || (N_of_ascii a =? 62)%N || (N_of_ascii a =? 96)%N)%bool.

Definition hex_digit (n : N) : ascii :=
  ascii_of_N (if (n <? 10)%N then 48 + n else 55 + n)%N.

(** [%XX] *)
Definition percent_encode (a : ascii) : string :=
  String "%" (String (hex_digit (N_of_ascii a / 16))
                     (String (hex_digit (N_of_ascii a mod 16)) EmptyString)).

Fixpoint encode_fragment (s : string) : string :=
  match s with
  | EmptyString => EmptyString
  | String a rest =>
      (if in_fragment_encode_set a then percent_encode a
       else String a EmptyString) +:+ encode_fragment rest
  end.

(** The URL parser on a reference made of an absolute path in its
    serialized form (as [location.pathname] gives it), an optional query
    and an optional fragment, resolved against the document's URL: the
    input is stripped, split at the first [#] and the first [?] before
    it, and the fragment is percent-encoded.  The path is the one of a
    hierarchical URL and does not begin with two slashes (a reference
    that does names another host, and [replaceState] rejects it). *)
Definition parse_url (s : string) : URL :=
  let s := remove_tab_newline (strip_trailing (strip_leading s)) in
  let '(before, fragment) := split_at "#"%char s in
  let '(path, query) := split_at "?"%char before in
  mkURL path (url_component "?" query)
        (url_component "#" (encode_fragment <$> fragment)).

(** [history.replaceState(null, '', url)]: the current entry takes the
    new URL; no entry is added or removed. *)
Definition replaceState (url : string) (h : History) : History :=
  mkHistory (history_back h) (parse_url url) (history_forward h).

(** ** JSON values

    What [res.json()] can resolve to.  A number is carried as the string
    [ToString] gives for it, which is all the script can observe of it
    besides its truthiness ([0] prints as ["0"]).  The properties of an
    object are listed in the order [Object.entries] enumerates them. *)

#[local] Set Warnings "-register-all".

Inductive JValue :=
| JNull
| JBool (b : bool)
| JNumber (text : string)
| JString (s : string)
| JArray (items : list JValue)
| JObject (props : list (string * JValue)).

(** [!!v] *)
Definition js_truthy (v : JValue) : bool :=
  match v with
  | JNull => false
  | JBool b => b
  | JNumber text => bool_decide (text ≠ "0")
  | JString s => truthy s
  | JArray _ | JObject _ => true
  end.

(** [typeof v === 'object'] (which holds of [null] and of arrays) *)
Definition typeof_object (v : JValue) : bool :=
  match v with
  | JNull | JArray _ | JObject _ => true
  | JBool _ | JNumber _ | JString _ => false
  end.

(** [Array.isArray(v)] *)
Definition isArray (v : JValue) : bool :=
  match v with
  | JArray _ => true
  | _ => false
  end.

(** [Object.entries(v)] for the values that pass the guard of
    [populateGrids]: the properties of an object, the indexed elements of
    an array. *)
Definition Object_entries (v : JValue) : list (string * JValue) :=
  match v with
  | JObject props => props
  | JArray items => imap (λ i x, (pretty i, x)) items
  | _ => []
  end.

(** [ToString(v)], and [Array.prototype.join], which prints [null]
    elements as the empty string and nested arrays through
    [join(",")].  [None] stands for the [TypeError] that the conversion
    of an object to a primitive raises when the object has an own
    [toString] property: a value parsed from JSON is never callable, and
    [Object.prototype.valueOf] returns the object.  An object without
    such a key prints through [Object.prototype.toString]. *)
Fixpoint ToString (v : JValue) : option string :=
  match v with
  | JNull => Some "null"
  | JBool b => Some (if b then "true" else "false")
  | JNumber text => Some text
  | JString s => Some s
  | JArray items =>
      (fix join (l : list JValue) : option string :=
         match l with
         | [] => Some ""
         | x :: rest =>
             match match x with JNull => Some "" | _ => ToString x end with
             | None => None
             | Some first =>
                 match rest with
                 | [] => Some first
                 | _ :: _ =>
                     match join rest with
                     | None => None
                     | Some others => Some (first +:+ "," +:+ others)
                     end
                 end
             end
         end) items
  | JObject props =>
      if bool_decide ("toString" ∈ props.*1) then None
      else Some "[object Object]"
  end.

Definition join_element (x : JValue) : option string :=
  match x with
  | JNull => Some ""
  | _ => ToString x
  end.

Fixpoint Array_join (sep : string) (l : list JValue) : option string :=
  match l with
  | [] => Some ""
  | x :: rest =>
      match join_element x with
      | None => None
      | Some first =>
          match rest with
          | [] => Some first
          | _ :: _ =>
              match Array_join sep rest with
              | None => None
              | Some others => Some (first +:+ sep +:+ others)
              end
          end
      end
  end.

(** ** Grids and expand buttons *)

(** An [.expand-btn] button: its text and its attributes other than
    [class] (class lists are carried apart, where the script reads
    them). *)
Record ExpandBtn := mkExpandBtn {
  btn_textContent : string;
  btn_attrs : gmap string string
}.

(** [btn.setAttribute(name, value)] *)
Definition setAttribute (name value : string) (b : ExpandBtn) : ExpandBtn :=
  mkExpandBtn (btn_textContent b) (<[ name := value ]> (btn_attrs b)).

(** An element matching [.resource-grid[data-section]]: the attribute,
    the markup last parsed into it, the expand buttons that markup
    produced outside any grid nested in it (their attributes change
    after parsing, the markup field does not follow them), and its
    depth: the number of grids it lies in.  The grids of the document
    are listed in document order, so the grids nested in a grid are the
    deeper ones that follow it. *)
Record Grid := mkGrid {
  grid_section : string;
  grid_innerHTML : string;
  grid_btns : list ExpandBtn;
  grid_depth : nat
}.

(** The first grid, in document order, whose [data-section] is
    [section], with its position. *)
Definition first_grid (section : string) (gs : list Grid)
  : option (nat * Grid) :=
  list_find (λ g, grid_section g = section) gs.

(** What the HTML parser makes of a piece of markup, as far as the
    script observes it: the expand buttons outside any grid of the
    markup, and the grids of the markup in document order, with their
    depth inside the markup. *)
Record MarkupContent := mkMarkupContent {
  markup_btns : list ExpandBtn;
  markup_grids : list Grid
}.

(** The double quote, and [`.resource-grid[data-section="${section}"]`]:
    the key goes into the selector as it is. *)
Definition dquote : string := String "034"%char EmptyString.

Definition grid_selector (section : string) : string :=
  ".resource-grid[data-section=" +:+ dquote +:+ section +:+ dquote +:+ "]".

(** ** The page *)

Inductive JsError :=
| NetworkError (reason : string)
| HttpError (statusText : string)
| SyntaxError
| TypeError.

(** Outcome of [fetch('generated_content.json')] followed by
    [res.json()]: the fetch promise rejects, or a response arrives with
    its [ok] flag, its status text and, when the body is JSON, the value
    it denotes. *)
Inductive FetchOutcome :=
| FetchRejected (reason : string)
| FetchResponse (ok : bool) (statusText : string) (json : option JValue).

Record Page := mkPage {
  navdom : NavDom;
  (** [#main]: its [scrollTop]; [None] when the element is missing *)
  main_scrollTop : option nat;
  grids : list Grid;
  (** the expand buttons that are in no grid *)
  other_btns : list ExpandBtn;
  history : History;
  contentData : JValue;
  (** what [console.error] has received *)
  console : list (string * JsError)
}.

Definition location_hash (p : Page) : string :=
  url_hash (history_current (history p)).

Definition location_pathname (p : Page) : string :=
  url_pathname (history_current (history p)).

Definition set_navdom (d : NavDom) (p : Page) : Page :=
  mkPage d (main_scrollTop p) (grids p) (other_btns p) (history p)
         (contentData p) (console p).

Definition set_main_scrollTop (m : option nat) (p : Page) : Page :=
  mkPage (navdom p) m (grids p) (other_btns p) (history p)
         (contentData p) (console p).

Definition set_grids (gs : list Grid) (p : Page) : Page :=
  mkPage (navdom p) (main_scrollTop p) gs (other_btns p) (history p)
         (contentData p) (console p).

Definition set_other_btns (bs : list ExpandBtn) (p : Page) : Page :=
  mkPage (navdom p) (main_scrollTop p) (grids p) bs (history p)
         (contentData p) (console p).

Definition set_history (h : History) (p : Page) : Page :=
  mkPage (navdom p) (main_scrollTop p) (grids p) (other_btns p) h
         (contentData p) (console p).

Definition set_contentData (v : JValue) (p : Page) : Page :=
  mkPage (navdom p) (main_scrollTop p) (grids p) (other_btns p) (history p)
         v (console p).

(** [console.error(msg, err)] *)
Definition console_error (msg : string) (err : JsError) (p : Page) : Page :=
  mkPage (navdom p) (main_scrollTop p) (grids p) (other_btns p) (history p)
         (contentData p) (console p ++ [(msg, err)]).

(** How a call that can raise ends: normally, or by an exception that
    leaves the state reached when it was raised. *)
Inductive Completion (S : Type) :=
| Normal (s : S)
| Throw (e : JsError) (s : S).

Arguments Normal {S} s.
Arguments Throw {S} e s.

(** How a browser call that changes nothing ends. *)
Inductive Outcome (A : Type) :=
| Returns (a : A)
| Raises (e : JsError).

Arguments Returns {A} a.
Arguments Raises {A} e.

(** An element [document.querySelector] can return: the grid at a
    position of the page's grids, or an element that is no grid, given
    by what an assignment to its [innerHTML] does to the page. *)
Inductive Element :=
| GridEl (i : nat)
| OtherEl (assign : string → Page → Page).

(** ** Section navigator *)

(** The body of the [SECTION_IDS.forEach] callback of [showSection]. *)
Definition show_one (sectionId : string) (d : NavDom) (id : string) : NavDom :=
  let link := nav d ≫= querySelector_link id in
  match blocks d !! block_id id with
  | Some block =>
      let visible := bool_decide (id = sectionId) in
      let block' :=
        mkBlock (classList_toggle "is-visible" visible (block_classList block))
                (negb visible) in
      mkNavDom
        (<[ block_id id := block' ]> (blocks d))
        (match nav d, link with
         | Some links, Some (i, l) =>
             Some (<[ i := set_link_class (classList_toggle "active" visible) l ]>
                     links)
         | _, _ => nav d
         end)
  | None => d
  end.

Definition showSection (sectionId : string) (updateHash : bool) (p : Page)
  : Page :=
  let p := set_navdom (foldl (show_one sectionId) (navdom p) SECTION_IDS) p in
  let p :=
    if updateHash then
      let url := location_pathname p +:+ "#" +:+ sectionId in
      if bool_decide (location_hash p ≠ "#" +:+ sectionId)
      then set_history (replaceState url (history p)) p
      else p
    else p in
  match main_scrollTop p with
  | Some _ => if truthy sectionId then set_main_scrollTop (Some 0) p else p
  | None => p
  end.

(** The listener [initNavigation] registers for [hashchange] (and, with
    the same body, for [load]). *)
Definition hashchange_listener (p : Page) : Page :=
  let hash := slice1 (location_hash p) in
  if includes SECTION_IDS hash then showSection hash false p else p.

(** A [hashchange] event: [initNavigation] returns before registering
    anything when the page has no [#nav]. *)
Definition on_hashchange (p : Page) : Page :=
  match nav (navdom p) with
  | Some _ => hashchange_listener p
  | None => p
  end.

(** ** Content loader *)

Section ContentLoader.

(** [document.querySelector] of the browser, on the selector text the
    script builds and the page it is called on. *)
Context (querySelector : string → Page → Outcome (option Element)).

(** The HTML parser of the browser. *)
Context (parse_markup : string → MarkupContent).

(** The grids at the head of [gs] that are deeper than [depth]: what
    follows a grid of that depth and lies inside it. *)
Fixpoint drop_nested (depth : nat) (gs : list Grid) : list Grid :=
  match gs with
  | [] => []
  | g :: rest =>
      if bool_decide (depth < grid_depth g)%nat then drop_nested depth rest
      else gs
  end.

Definition nest_under (depth : nat) (g : Grid) : Grid :=
  mkGrid (grid_section g) (grid_innerHTML g) (grid_btns g)
         (S depth + grid_depth g).

(** [grid.innerHTML = html] on the grid at position [i]: the grids
    nested in it go, those of the markup come in their place. *)
Definition assign_grid (i : nat) (html : string) (gs : list Grid)
  : list Grid :=
  match gs !! i with
  | None => gs
  | Some g =>
      take i gs
      ++ mkGrid (grid_section g) html (markup_btns (parse_markup html))
                (grid_depth g)
         :: (nest_under (grid_depth g) <$> markup_grids (parse_markup html))
      ++ drop_nested (grid_depth g) (drop (S i) gs)
  end.

(** [el.innerHTML = html] *)
Definition set_innerHTML (el : Element) (html : string) (p : Page) : Page :=
  match el with
  | GridEl i => set_grids (assign_grid i html (grids p)) p
  | OtherEl assign => assign html p
  end.

(** The body of the [for ... of Object.entries(contentData)] loop. *)
Definition populate_one (p : Page) (entry : string * JValue)
  : Completion Page :=
  let '(section, items) := entry in
  match querySelector (grid_selector section) p with
  | Raises e => Throw e p
  | Returns None => Normal p
  | Returns (Some grid) =>
      match items with
      | JArray xs =>
          match Array_join "" xs with
          | Some html => Normal (set_innerHTML grid html p)
          | None => Throw TypeError p
          end
      | _ => Normal p
      end
  end.

(** The loop: an exception ends it where it is raised. *)
Fixpoint populate_entries (entries : list (string * JValue)) (p : Page)
  : Completion Page :=
  match entries with
  | [] => Normal p
  | entry :: rest =>
      match populate_one p entry with
      | Normal p' => populate_entries rest p'
      | Throw e p' => Throw e p'
      end
  end.

Definition collapse_btn : ExpandBtn → ExpandBtn :=
  setAttribute "aria-expanded" "false".

(** [document.querySelectorAll('.expand-btn').forEach(...)] of
    [populateGrids] *)
Definition reset_expand_btns (p : Page) : Page :=
  set_other_btns (collapse_btn <$> other_btns p)
    (set_grids
       ((λ g, mkGrid (grid_section g) (grid_innerHTML g)
                     (collapse_btn <$> grid_btns g) (grid_depth g)) <$> grids p)
       p).

Definition populateGrids (p : Page) : Completion Page :=
  if negb (js_truthy (contentData p)) || negb (typeof_object (contentData p))
  then Normal p
  else
    match populate_entries (Object_entries (contentData p)) p with
    | Throw e p => Throw e p
    | Normal p =>
        let p := reset_expand_btns p in
        let hash := or_else (slice1 (location_hash p)) DEFAULT_SECTION in
        Normal
          (showSection
             (if includes SECTION_IDS hash then hash else DEFAULT_SECTION)
             false p)
    end.

Definition load_failed : string := "AWS Guide: failed to load content".

(** [loadContent], given what the fetch produces.  The [catch] also
    takes what [populateGrids] raises. *)
Definition loadContent (o : FetchOutcome) (p : Page) : Page :=
  match o with
  | FetchRejected reason => console_error load_failed (NetworkError reason) p
  | FetchResponse ok statusText json =>
      if negb ok then console_error load_failed (HttpError statusText) p
      else
        match json with
        | None => console_error load_failed SyntaxError p
        | Some v =>
            match populateGrids (set_contentData v p) with
            | Normal p' => p'
            | Throw e p' => console_error load_failed e p'
            end
        end
  end.

End ContentLoader.

(** ** Image modal *)

(** [#image-modal]: its [hidden] property, whether it has a
    [.modal-close] descendant, and whether that control takes the focus
    when [focus()] is called on it in the revealed modal (a control that
    is not focusable does not). *)
Record ModalEl := mkModalEl {
  modal_hidden : bool;
  modal_has_close : bool;
  modal_close_focusable : bool
}.

Record ImgEl := mkImgEl {
  img_src : string;
  img_alt : string
}.

(** The elements the script looks up for the modal at start-up (each is
    [None] when the lookup gave [null]), the body's inline [overflow] and
    whether the close control holds the focus. *)
Record ModalDom := mkModalDom {
  modal : option ModalEl;
  modalImg : option ImgEl;
  modalCaption : option string;
  body_overflow : string;
  close_focused : bool
}.

Definition openModal (src title : string) (m : ModalDom)
  : Completion ModalDom :=
  match modal m, modalImg m with
  | Some md, Some _ =>
      let img := mkImgEl src (or_else title "Image") in
      match modalCaption m with
      | None =>
          (* modalCaption.textContent = ... on null *)
          Throw TypeError
            (mkModalDom (modal m) (Some img) None (body_overflow m)
                        (close_focused m))
      | Some _ =>
          Normal
            (mkModalDom (Some (mkModalEl false (modal_has_close md)
                                         (modal_close_focusable md)))
                        (Some img)
                        (Some (or_else title ""))
                        "hidden"
                        (if modal_has_close md && modal_close_focusable md
                         then true else close_focused m))
      end
  | _, _ => Normal m
  end.

Definition closeModal (m : ModalDom) : ModalDom :=
  match modal m with
  | Some md =>
      mkModalDom (Some (mkModalEl true (modal_has_close md)
                                  (modal_close_focusable md)))
                 (modalImg m) (modalCaption m) "" (close_focused m)
  | None => m
  end.

(** ** Card toggle *)

(** The two siblings before the button: the full text, and before it
    (when there is one) the short text, each with its inline
    [style.display]. *)
Record CardText := mkCardText {
  full_display : string;
  short_display : option string
}.

(** [btn.closest('.resource-card')]: nothing, the button itself, or an
    ancestor, given by its class list. *)
Inductive CardRef :=
| CardNone
| CardIsButton
| CardAncestor (classList : gset string).

(** What [toggleResource(btn)] reaches from the button: the closest
    [.resource-card], the preceding siblings, and the button itself with
    its class list. *)
Record CardDom := mkCardDom {
  card : CardRef;
  card_text : option CardText;
  card_btn : ExpandBtn;
  btn_classList : gset string
}.

(** The class list of the card, when there is one. *)
Definition card_classList (c : CardDom) : option (gset string) :=
  match card c with
  | CardNone => None
  | CardIsButton => Some (btn_classList c)
  | CardAncestor cl => Some cl
  end.

(** [card?.classList.add/remove]: on the button's own class list when
    the button is the card. *)
Definition with_card_classes (f : gset string → gset string) (c : CardDom)
    (t : CardText) (b : ExpandBtn) : CardDom :=
  match card c with
  | CardNone => mkCardDom CardNone (Some t) b (btn_classList c)
  | CardIsButton => mkCardDom CardIsButton (Some t) b (f (btn_classList c))
  | CardAncestor cl => mkCardDom (CardAncestor (f cl)) (Some t) b (btn_classList c)
  end.

Definition toggleResource (c : CardDom) : CardDom :=
  match card_text c with
  | None => c
  | Some t =>
      let isExpanded := bool_decide (full_display t = "block") in
      if isExpanded then
        with_card_classes (λ cl, cl ∖ {[ "is-expanded" ]}) c
          (mkCardText "none" ((λ _, "block") <$> short_display t))
          (setAttribute "aria-expanded" "false"
             (mkExpandBtn "Read More" (btn_attrs (card_btn c))))
      else
        with_card_classes (λ cl, cl ∪ {[ "is-expanded" ]}) c
          (mkCardText "block" ((λ _, "none") <$> short_display t))
          (setAttribute "aria-expanded" "true"
             (mkExpandBtn "Read Less" (btn_attrs (card_btn c))))
  end.

(** ** Navigation events *)

(** The listener [initNavigation] registers for [load]: the same body as
    the [hashchange] listener. *)
Definition load_listener (p : Page) : Page :=
  let hash := slice1 (location_hash p) in
  if includes SECTION_IDS hash then showSection hash false p else p.

Definition on_load (p : Page) : Page :=
  match nav (navdom p) with
  | Some _ => load_listener p
  | None => p
  end.




(** ** Theme, zen and challenge toggles *)

(** [classList.toggle(c)] *)
Definition classList_flip (c : string) (cl : gset string) : gset string :=
  if decide (c ∈ cl) then cl ∖ {[ c ]} else cl ∪ {[ c ]}.

(** Whether [#theme-btn] and [#zen-btn] exist, the [checked] property of
    [#challenge-toggle] ([None] when it is missing), and the class list
    of [document.body]. *)
Record Toolbar := mkToolbar {
  theme_btn : bool;
  zen_btn : bool;
  challenge_toggle : option bool;
  body_classList : gset string
}.

(** A click on [#theme-btn]; [initTheme] registers nothing when the
    button is missing. *)
Definition on_theme_click (t : Toolbar) : Toolbar :=
  if theme_btn t then
    mkToolbar (theme_btn t) (zen_btn t) (challenge_toggle t)
              (classList_flip "dark-mode" (body_classList t))
  else t.

(** A click on [#zen-btn]. *)
Definition on_zen_click (t : Toolbar) : Toolbar :=
  if zen_btn t then
    mkToolbar (theme_btn t) (zen_btn t) (challenge_toggle t)
              (classList_flip "zen-mode" (body_classList t))
  else t.

(** A [change] event of [#challenge-toggle] that leaves the box with the
    given [checked] state: the listener reads [this.checked]. *)
Definition on_challenge_change (checked : bool) (t : Toolbar) : Toolbar :=
  match challenge_toggle t with
  | Some _ =>
      mkToolbar (theme_btn t) (zen_btn t) (Some checked)
                (classList_toggle "challenge-mode-active" checked
                   (body_classList t))
  | None => t
  end.

(** ** Notions used in the statements and proofs *)

(** In-place update of the first element satisfying [P]: what a
    [querySelector] followed by a mutation of the element found does to
    the list of candidates. *)
Fixpoint update_first {A} (P : A → Prop) `{∀ x, Decision (P x)}
    (f : A → A) (l : list A) : list A :=
  match l with
  | [] => []
  | x :: rest => if decide (P x) then f x :: rest else x :: update_first P f rest
  end.

(** A section is shown when its container exists and is not [hidden]. *)
Definition is_shown (d : NavDom) (id : string) : bool :=
  match blocks d !! block_id id with
  | Some b => negb (block_hidden b)
  | None => false
  end.

Definition visible_sections (d : NavDom) : list string :=
  filter (λ id, is_shown d id = true) SECTION_IDS.

(** What one iteration writes to a block, and to the link it finds. *)
Definition show_block (visible : bool) (b : Block) : Block :=
  mkBlock (classList_toggle "is-visible" visible (block_classList b))
          (negb visible).

Definition show_link (visible : bool) : NavLink → NavLink :=
  set_link_class (classList_toggle "active" visible).

(** The [data-section] attributes of the nav links, in document order. *)
Definition link_sections (d : NavDom) : option (list string) :=
  fmap (M := list) link_section <$> nav d.

(** The fragment list the Content Map gives for [section], when it gives
    one and it is an array. *)
Fixpoint array_entry (entries : list (string * JValue)) (section : string)
  : option (list JValue) :=
  match entries with
  | [] => None
  | (k, v) :: rest =>
      if decide (k = section)
      then match v with JArray xs => Some xs | _ => None end
      else array_entry rest section
  end.

(** The text a fragment list joins to (empty when the join raises). *)
Definition join_text (xs : list JValue) : string :=
  default "" (Array_join "" xs).

(** A grid after an assignment of markup that holds no grid. *)
Definition filled (parse_markup : string → MarkupContent) (html : string)
    (g : Grid) : Grid :=
  mkGrid (grid_section g) html (markup_btns (parse_markup html)) (grid_depth g).

(** The loop body on well-behaved content: the first grid of the
    section, when there is one and the value is an array, is filled in
    place. *)
Definition fill_one (parse_markup : string → MarkupContent)
    (gs : list Grid) (entry : string * JValue) : list Grid :=
  let '(section, items) := entry in
  match first_grid section gs, items with
  | Some (i, grid), JArray xs => <[ i := filled parse_markup (join_text xs) grid ]> gs
  | _, _ => gs
  end.

(** The grid at position [i] after the loop of [populateGrids] over
    well-behaved [entries]: the first grid of its section takes the
    joined fragment list when the Content Map has one for the section. *)
Definition populated (parse_markup : string → MarkupContent)
    (entries : list (string * JValue)) (gs : list Grid)
    (i : nat) (g : Grid) : Grid :=
  if decide (fst <$> first_grid (grid_section g) gs = Some i) then
    match array_entry entries (grid_section g) with
    | Some xs => filled parse_markup (join_text xs) g
    | None => g
    end
  else g.

(** A key that goes into a CSS string as it is: it holds no double
    quote, no backslash, no line break and no NUL, so that the selector
    [grid_selector key] is the test that [data-section] equals the
    key. *)
Fixpoint css_plain (key : string) : bool :=
  match key with
  | EmptyString => true
  | String a rest =>
      negb ((N_of_ascii a =? 0)%N || (N_of_ascii a =? 10)%N
            || (N_of_ascii a =? 12)%N || (N_of_ascii a =? 13)%N
            || (N_of_ascii a =? 34)%N || (N_of_ascii a =? 92)%N)
      && css_plain rest
  end.

(** What is assumed of the browser's selector engine: on the selector of
    a plain key it returns the first grid whose [data-section] is the
    key, or nothing when there is none.  Nothing is assumed of it on
    other selectors. *)
Definition selector_engine_ok
    (querySelector : string → Page → Outcome (option Element)) : Prop :=
  ∀ key p, css_plain key = true →
    querySelector (grid_selector key) p
    = Returns (GridEl ∘ fst <$> first_grid key (grids p)).

(** Content whose keys are all plain. *)
Definition plain_keys (entries : list (string * JValue)) : Prop :=
  Forall (λ k, css_plain k = true) entries.*1.

(** Content whose fragment lists join without raising, to markup that
    holds no grid. *)
Definition joinable (parse_markup : string → MarkupContent)
    (entries : list (string * JValue)) : Prop :=
  ∀ k xs, (k, JArray xs) ∈ entries →
    ∃ html, Array_join "" xs = Some html
            ∧ markup_grids (parse_markup html) = [].

(** Grids none of which lies in another. *)
Definition flat (gs : list Grid) : Prop :=
  Forall (λ g, grid_depth g = 0) gs.

(** The page a call leaves, however it ends. *)
Definition completion_state {S : Type} (c : Completion S) : S :=
  match c with
  | Normal s | Throw _ s => s
  end.

(** A page on which [populateGrids] fills grids in place: the keys of
    its content are plain, the fragment lists join to markup without
    grids, and its grids do not nest. *)
Definition plain_content (parse_markup : string → MarkupContent) (p : Page)
  : Prop :=
  plain_keys (Object_entries (contentData p))
  ∧ joinable parse_markup (Object_entries (contentData p))
  ∧ flat (grids p).

(** A fragment the URL parser keeps as it is. *)
Fixpoint fragment_plain (s : string) : bool :=
  match s with
  | EmptyString => true
  | String a rest => negb (in_fragment_encode_set a) && fragment_plain rest
  end.

(** A byte a serialized path holds as it is: a printable ASCII byte
    outside the path percent-encode set, and no backslash (which the
    parser reads as a slash). *)
Definition path_byte_ok (a : ascii) : bool :=
  (32 <? N_of_ascii a)%N && (N_of_ascii a <? 127)%N
  && negb (bool_decide
             (a ∈ [ "#"%char; "?"%char; "034"%char; "<"%char; ">"%char;
                    "^"%char; "`"%char; "{"%char; "}"%char; "\"%char ])).

Fixpoint path_bytes_ok (s : string) : bool :=
  match s with
  | EmptyString => true
  | String a rest => path_byte_ok a && path_bytes_ok rest
  end.

(** The segments of a path, split at its slashes ([cur] is the segment
    being read). *)
Fixpoint path_segments (cur : string) (s : string) : list string :=
  match s with
  | EmptyString => [cur]
  | String a rest =>
      if bool_decide (a = "/"%char) then cur :: path_segments "" rest
      else path_segments (cur +:+ String a EmptyString) rest
  end.

(** The segments the parser reads as [.] or [..] and removes. *)
Definition dot_segments : list string :=
  [ "."; ".."; "%2e"; "%2E"; ".%2e"; ".%2E"; "%2e."; "%2E.";
    "%2e%2e"; "%2e%2E"; "%2E%2e"; "%2E%2E" ].

(** A path [location.pathname] can give for a hierarchical URL and that
    names the same host when it is resolved: it begins with one slash,
    not two, its bytes are ones a serialized path holds as they are, and
    none of its segments is a dot segment. *)
Definition local_path (s : string) : bool :=
  String.prefix "/" s && negb (String.prefix "//" s)
  && path_bytes_ok s
  && forallb (λ segment, negb (bool_decide (segment ∈ dot_segments)))
             (path_segments "" s).


(** The fetch failed: network error, non-success status, or a body that
    is not JSON. *)
Definition fetch_failed (o : FetchOutcome) : Prop :=
  match o with
  | FetchRejected _ => True
  | FetchResponse ok _ json => ok = false ∨ json = None
  end.

(** [c] occurs in [s]. *)
Fixpoint has_char (c : ascii) (s : string) : bool :=
  match s with
  | EmptyString => false
  | String a rest => bool_decide (a = c) || has_char c rest
  end.

(** The state a collapse leaves a card in: full text hidden by
    [display: none], short text (when there is one) shown by
    [display: block], button reading [Read More] with
    [aria-expanded="false"], card without the class [is-expanded]. *)
Definition collapsed (c : CardDom) : Prop :=
  (∃ short, card_text c = Some (mkCardText "none" short) ∧
            (short = None ∨ short = Some "block")) ∧
  btn_textContent (card_btn c) = "Read More" ∧
  btn_attrs (card_btn c) !! "aria-expanded" = Some "false" ∧
  (∀ cl, card_classList c = Some cl → "is-expanded" ∉ cl).

(** The state an expansion leaves a card in. *)
Definition expanded (c : CardDom) : Prop :=
  (∃ short, card_text c = Some (mkCardText "block" short) ∧
            (short = None ∨ short = Some "none")) ∧
  btn_textContent (card_btn c) = "Read Less" ∧
  btn_attrs (card_btn c) !! "aria-expanded" = Some "true" ∧
  (∀ cl, card_classList c = Some cl → "is-expanded" ∈ cl).

(** What the reset of [populateGrids] does to a grid. *)
Definition collapse_grid (g : Grid) : Grid :=
  mkGrid (grid_section g) (grid_innerHTML g) (collapse_btn <$> grid_btns g)
         (grid_depth g).

(** Every expand button of the page: those of the grids and the others. *)
Definition expand_btns (p : Page) : list ExpandBtn :=
  other_btns p ++ (grids p ≫= grid_btns).

(** ** Example pages *)

Definition example_blocks : gmap string Block :=
  list_to_map ((λ id, (block_id id, mkBlock ∅ true)) <$> SECTION_IDS).

Definition example_nav : list NavLink :=
  (λ id, mkNavLink id {[ "nav-link" ]}) <$> SECTION_IDS.

Definition example_grids : list Grid :=
  (λ id, mkGrid id "" [] 0) <$> SECTION_IDS.

(** The Content Map [{"compute": ["<div>A</div>"], "storage": ["<div>B</div>"]}]. *)
Definition example_content : JValue :=
  JObject [ ("compute", JArray [JString "<div>A</div>"]);
            ("storage", JArray [JString "<div>B</div>"]) ].

(** A page with every section container, nav link and grid, loaded at
    [/aws/index.html] with the given fragment. *)
Definition example_page (hash : string) (content : JValue) : Page :=
  mkPage (mkNavDom example_blocks (Some example_nav))
         (Some 120) example_grids []
         (mkHistory [] (mkURL "/aws/index.html" "" hash) [])
         content [].

(** The example page reached from [/], at [/aws/index.html?v=2#compute]. *)
Definition example_page_query : Page :=
  mkPage (mkNavDom example_blocks (Some example_nav)) (Some 120)
         example_grids []
         (mkHistory [mkURL "/" "" ""]
                    (mkURL "/aws/index.html" "?v=2" "#compute") [])
         JNull [].

(** A selector engine for the examples.  It reads the key back from the
    selector text; for a plain key it returns the first grid whose
    [data-section] is the key, and every other selector it rejects with a
    [SyntaxError].  Browsers reject in this way the selector of the key
    [quote_key] used below, where a stray identifier follows the
    attribute value; the examples apply the engine to no other key that
    needs escaping. *)
Fixpoint strip_prefix (pre s : string) : option string :=
  match pre, s with
  | EmptyString, _ => Some s
  | String a pre', String b s' =>
      if decide (a = b) then strip_prefix pre' s' else None
  | String _ _, EmptyString => None
  end.

Fixpoint strip_closing (s : string) : option string :=
  match s with
  | EmptyString => None
  | String a rest =>
      if bool_decide (s = dquote +:+ "]") then Some EmptyString
      else String a <$> strip_closing rest
  end.

Definition selector_key (selector : string) : option string :=
  strip_prefix (".resource-grid[data-section=" +:+ dquote) selector
  ≫= strip_closing.

Definition strict_engine (selector : string) (p : Page)
  : Outcome (option Element) :=
  match selector_key selector with
  | Some key =>
      if css_plain key
      then Returns (GridEl ∘ fst <$> first_grid key (grids p))
      else Raises SyntaxError
  | None => Raises SyntaxError
  end.

(** A parser for the examples: it reads the expand buttons written
    [<button class='expand-btn'>text</button>], with their text, and no
    grid (the example markup holds none). *)
Definition expand_btn_tag : string := "<button class='expand-btn'>".

Fixpoint string_drop (n : nat) (s : string) : string :=
  match n, s with
  | S n', String _ rest => string_drop n' rest
  | _, _ => s
  end.

Fixpoint text_before_tag (s : string) : string :=
  match s with
  | EmptyString => EmptyString
  | String a rest =>
      if bool_decide (a = "<"%char) then EmptyString
      else String a (text_before_tag rest)
  end.

Fixpoint scan_expand_btns (s : string) : list ExpandBtn :=
  match s with
  | EmptyString => []
  | String a rest =>
      (if String.prefix expand_btn_tag s
       then [ mkExpandBtn
                (text_before_tag (string_drop (String.length expand_btn_tag) s))
                ∅ ]
       else [])
      ++ scan_expand_btns rest
  end.

Definition example_parser (html : string) : MarkupContent :=
  mkMarkupContent (scan_expand_btns html) [].

(** A Content Map with one card for [compute]. *)
Definition example_card_markup : string :=
  "<div class='resource-card'><h3>EC2</h3><p class='short-text'>Virtual servers</p><div class='full-text'>Elastic Compute Cloud</div><button class='expand-btn'>Read More</button></div>".

Definition example_cards_content : JValue :=
  JObject [ ("compute", JArray [JString example_card_markup]) ].

(** The example page with an expanded button outside the grids, at
    [#storage], loaded with the card. *)
Definition example_page_btns : Page :=
  mkPage (mkNavDom example_blocks (Some example_nav)) (Some 120)
         example_grids
         [ mkExpandBtn "Read Less" {[ "aria-expanded" := "true" ]} ]
         (mkHistory [] (mkURL "/aws/index.html" "" "#storage") [])
         example_cards_content [].

(** A parser for one example: markup that opens a grid for [storage]
    holds that grid, empty, and nothing else the script looks at. *)
Definition storage_grid_markup : string :=
  "<section class='resource-grid' data-section='storage'></section>".

Definition nesting_parser (html : string) : MarkupContent :=
  if String.prefix storage_grid_markup html
  then mkMarkupContent [] [ mkGrid "storage" "" [] 0 ]
  else mkMarkupContent [] [].

(** A Content Map whose markup for [compute] holds a grid for
    [storage]. *)
Definition nesting_content : JValue :=
  JObject [ ("compute", JArray [JString storage_grid_markup]);
            ("storage", JArray [JString "<div>B</div>"]) ].



(** A page with one grid whose [data-section] is [0], and a top-level
    array as content. *)
Definition indexed_page : Page :=
  mkPage (mkNavDom example_blocks (Some example_nav)) (Some 0)
         [ mkGrid "0" "" [] 0 ] []
         (mkHistory [] (mkURL "/aws/index.html" "" "") [])
         (JArray [ JArray [ JString "<p>x</p>" ] ]) [].

(** A page whose markup lacks the container of [compute] but has its
    nav link, marked active. *)
Definition orphan_link_page : Page :=
  mkPage (mkNavDom (delete (block_id "compute") example_blocks)
                   (Some [ mkNavLink "compute" {[ "nav-link"; "active" ]};
                           mkNavLink "storage" {[ "nav-link" ]} ]))
         (Some 0) example_grids []
         (mkHistory [] (mkURL "/aws/index.html" "" "") [])
         JNull [].

(** A collapsed card as markup without an inline style on the short text
    gives it: full text hidden inline, short text shown by the style
    sheet. *)
Definition plain_card : CardDom :=
  mkCardDom (CardAncestor {[ "resource-card" ]})
            (Some (mkCardText "none" (Some "")))
            (mkExpandBtn "Read More" {[ "aria-expanded" := "false" ]})
            {[ "expand-btn" ]}.

(** The same card with the short text shown by an inline
    [display: block]. *)
Definition block_card : CardDom :=
  mkCardDom (CardAncestor {[ "resource-card" ]})
            (Some (mkCardText "none" (Some "block")))
            (mkExpandBtn "Read More" {[ "aria-expanded" := "false" ]})
            {[ "expand-btn" ]}.

(** A button that is its own card: it carries [resource-card]. *)
Definition button_card : CardDom :=
  mkCardDom CardIsButton
            (Some (mkCardText "none" (Some "block")))
            (mkExpandBtn "Read More" {[ "aria-expanded" := "false" ]})
            {[ "expand-btn"; "resource-card" ]}.

(** A page with the modal and its image but no [#modal-caption]. *)
Definition captionless_modal : ModalDom :=
  mkModalDom (Some (mkModalEl true true true)) (Some (mkImgEl "" "")) None ""
             false.

(** A closed modal whose close control is a [span], which takes no
    focus; the body scrolls by an inline [overflow]. *)
Definition span_close_modal : ModalDom :=
  mkModalDom (Some (mkModalEl true true false)) (Some (mkImgEl "" ""))
             (Some "old") "scroll" false.

(** * Properties *)

(** ** Folding a commuting family of idempotent steps *)

Section FoldSteps.
Context {A B : Type} (f : A → B → A).
Hypothesis f_comm : ∀ a x y, f (f a x) y = f (f a y) x.
Hypothesis f_idem : ∀ a x, f (f a x) x = f a x.

Lemma foldl_step_last (l : list B) (a : A) (x : B) :
  f (foldl f a l) x = foldl f (f a x) l.
Proof.
  revert a. induction l as [|y l IH]; intros a; simpl; [done|].
  by rewrite IH, f_comm.
Qed.

Lemma foldl_step_fixed (l : list B) (a : A) (x : B) :
  x ∈ l → f (foldl f a l) x = foldl f a l.
Proof.
  revert a. induction l as [|y l IH]; intros a Hx; simpl.
  - by apply elem_of_nil in Hx.
  - apply elem_of_cons in Hx as [->|Hx]; [|by apply IH].
    by rewrite foldl_step_last, f_idem.
Qed.

Lemma foldl_twice (l : list B) (a : A) :
  foldl f (foldl f a l) l = foldl f a l.
Proof.
  revert a. induction l as [|y l IH]; intros a; simpl; [done|].
  by rewrite foldl_step_last, f_idem, IH.
Qed.
End FoldSteps.

(** ** Lists: first-match update *)

Section UpdateFirst.
Context {A : Type} (P : A → Prop) `{∀ x, Decision (P x)}.

Lemma list_find_update_first (f : A → A) (l : list A) :
  match list_find P l with
  | Some (i, x) => <[ i := f x ]> l
  | None => l
  end = update_first P f l.
Proof.
  induction l as [|a l IH]; simpl; [done|].
  case_decide; simpl; [done|].
  destruct (list_find P l) as [[i x]|]; simpl in *; by rewrite <- IH.
Qed.

Lemma update_first_idem (f : A → A) (l : list A) :
  (∀ x, P x → P (f x)) → (∀ x, f (f x) = f x) →
  update_first P f (update_first P f l) = update_first P f l.
Proof.
  intros HP Hf. induction l as [|a l IH]; simpl; [done|].
  destruct (decide (P a)) as [Ha|Ha]; simpl.
  - by rewrite decide_True, Hf by auto.
  - by rewrite decide_False, IH by done.
Qed.

Lemma update_first_fmap {B} (g : A → B) (f : A → A) (l : list A) :
  (∀ x, g (f x) = g x) → g <$> update_first P f l = g <$> l.
Proof.
  intros Hg. induction l as [|a l IH]; simpl; [done|].
  case_decide; csimpl; [by rewrite Hg | by rewrite IH].
Qed.
End UpdateFirst.

Lemma update_first_comm {A} (P Q : A → Prop)
    `{∀ x, Decision (P x)} `{∀ x, Decision (Q x)} (f g : A → A) (l : list A) :
  (∀ x, P x → ¬ Q x) →
  (∀ x, P (g x) ↔ P x) → (∀ x, Q (f x) ↔ Q x) →
  update_first P f (update_first Q g l) = update_first Q g (update_first P f l).
Proof.
  intros Hdisj HPg HQf. induction l as [|a l IH]; simpl; [done|].
  destruct (decide (Q a)) as [Hq|Hq], (decide (P a)) as [Hp|Hp]; simpl.
  - by destruct (Hdisj a).
  - rewrite (decide_False (P := P (g a))) by (by rewrite HPg).
    by rewrite (decide_True (P := Q a)) by done.
  - rewrite (decide_True (P := P a)) by done.
    by rewrite (decide_False (P := Q (f a))) by (by rewrite HQf).
  - by rewrite (decide_False (P := P a)), (decide_False (P := Q a)), IH by done.
Qed.

(** ** Section navigator: the loop over [SECTION_IDS] *)

Lemma block_id_inj (a b : string) : block_id a = block_id b → a = b.
Proof. unfold block_id. simpl. by intros [= ?]. Qed.

Lemma classList_toggle_idem (c : string) (v : bool) (cl : gset string) :
  classList_toggle c v (classList_toggle c v cl) = classList_toggle c v cl.
Proof.
  unfold classList_toggle. destruct v; apply set_eq; intros x;
    rewrite ?elem_of_union, ?elem_of_difference; tauto.
Qed.

Lemma classList_toggle_elem (c : string) (v : bool) (cl : gset string) :
  c ∈ classList_toggle c v cl ↔ v = true.
Proof.
  unfold classList_toggle. destruct v;
    rewrite ?elem_of_union, ?elem_of_difference, elem_of_singleton;
    intuition congruence.
Qed.

Lemma classList_toggle_other (c c' : string) (v : bool) (cl : gset string) :
  c' ≠ c → c' ∈ classList_toggle c v cl ↔ c' ∈ cl.
Proof.
  intros Hc. unfold classList_toggle. destruct v;
    rewrite ?elem_of_union, ?elem_of_difference, elem_of_singleton; tauto.
Qed.

Lemma show_one_eq (s : string) (d : NavDom) (id : string) :
  show_one s d id =
  match blocks d !! block_id id with
  | Some b =>
      mkNavDom (<[ block_id id := show_block (bool_decide (id = s)) b ]> (blocks d))
               (update_first (λ l, link_section l = id)
                             (show_link (bool_decide (id = s))) <$> nav d)
  | None => d
  end.
Proof.
  unfold show_one. destruct (blocks d !! block_id id) as [b|]; [|done].
  f_equal. destruct (nav d) as [links|]; simpl; [|done].
  unfold querySelector_link.
  rewrite <- (list_find_update_first _ (show_link (bool_decide (id = s))) links).
  by destruct (list_find _ links) as [[i l]|].
Qed.

Lemma show_block_idem (v : bool) (b : Block) :
  show_block v (show_block v b) = show_block v b.
Proof. unfold show_block. simpl. by rewrite classList_toggle_idem. Qed.

Lemma show_link_idem (v : bool) (l : NavLink) :
  show_link v (show_link v l) = show_link v l.
Proof.
  unfold show_link, set_link_class. simpl. by rewrite classList_toggle_idem.
Qed.

Lemma show_one_idem (s : string) (d : NavDom) (id : string) :
  show_one s (show_one s d id) id = show_one s d id.
Proof.
  rewrite (show_one_eq s d id).
  destruct (blocks d !! block_id id) as [b|] eqn:Hb.
  - rewrite show_one_eq. simpl. rewrite lookup_insert_eq.
    rewrite insert_insert_eq, show_block_idem. f_equal.
    destruct (nav d) as [links|]; simpl; [|done].
    f_equal. apply update_first_idem; [done|]. apply show_link_idem.
  - rewrite show_one_eq. by rewrite Hb.
Qed.

Lemma show_one_comm (s : string) (d : NavDom) (a b : string) :
  show_one s (show_one s d a) b = show_one s (show_one s d b) a.
Proof.
  destruct (decide (a = b)) as [->|Hab]; [done|].
  assert (block_id a ≠ block_id b) as Hk by (by intros ?%block_id_inj).
  rewrite (show_one_eq s d a), (show_one_eq s d b).
  destruct (blocks d !! block_id a) as [ba|] eqn:Ha,
           (blocks d !! block_id b) as [bb|] eqn:Hb;
    rewrite !show_one_eq; simpl;
    rewrite ?lookup_insert_ne, ?Ha, ?Hb by done; try done.
  f_equal; [by apply insert_insert_ne|].
  destruct (nav d) as [links|]; simpl; [|done].
  f_equal. apply update_first_comm; [|done..].
  intros l ? ?. apply Hab. congruence.
Qed.

Lemma navdom_showSection (s : string) (u : bool) (p : Page) :
  navdom (showSection s u p) = foldl (show_one s) (navdom p) SECTION_IDS.
Proof.
  unfold showSection.
  repeat match goal with
         | |- context [match ?x with _ => _ end] => destruct x
         end; done.
Qed.

Lemma show_one_dom (s : string) (d : NavDom) (id k : string) :
  is_Some (blocks (show_one s d id) !! k) ↔ is_Some (blocks d !! k).
Proof.
  rewrite show_one_eq. destruct (blocks d !! block_id id) as [b|] eqn:Hb; [|done].
  simpl. rewrite lookup_insert. case_decide; [|done].
  subst k. rewrite Hb. split; eauto.
Qed.

Lemma show_all_dom (s : string) (ids : list string) (d : NavDom) (k : string) :
  is_Some (blocks (foldl (show_one s) d ids) !! k) ↔ is_Some (blocks d !! k).
Proof.
  revert d. induction ids as [|a ids IH]; intros d; simpl; [done|].
  by rewrite IH, show_one_dom.
Qed.



Lemma show_one_link_sections (s : string) (d : NavDom) (id : string) :
  link_sections (show_one s d id) = link_sections d.
Proof.
  unfold link_sections. rewrite show_one_eq.
  destruct (blocks d !! block_id id) as [b|]; [|done].
  simpl. destruct (nav d) as [links|]; simpl; [|done].
  f_equal. by apply update_first_fmap.
Qed.

Lemma show_all_link_sections (s : string) (ids : list string) (d : NavDom) :
  link_sections (foldl (show_one s) d ids) = link_sections d.
Proof.
  revert d. induction ids as [|a ids IH]; intros d; simpl; [done|].
  by rewrite IH, show_one_link_sections.
Qed.

(** After the loop, every iteration is a no-op: the state is the one each
    iteration establishes. *)
Lemma show_all_fixed (s : string) (d : NavDom) (id : string) :
  id ∈ SECTION_IDS →
  show_one s (foldl (show_one s) d SECTION_IDS) id
  = foldl (show_one s) d SECTION_IDS.
Proof.
  apply foldl_step_fixed; [apply show_one_comm | apply show_one_idem].
Qed.

Lemma show_all_block (s : string) (d : NavDom) (id : string) (b : Block) :
  id ∈ SECTION_IDS →
  blocks (foldl (show_one s) d SECTION_IDS) !! block_id id = Some b →
  b = show_block (bool_decide (id = s)) b.
Proof.
  intros Hid Hb. pose proof (show_all_fixed s d id Hid) as Hfix.
  revert Hb Hfix. generalize (foldl (show_one s) d SECTION_IDS) as d'.
  intros d' Hb Hfix. rewrite show_one_eq, Hb in Hfix.
  apply (f_equal (λ d, blocks d !! block_id id)) in Hfix.
  cbn [blocks] in Hfix. rewrite lookup_insert_eq, Hb in Hfix. congruence.
Qed.

Lemma show_all_link (s : string) (d : NavDom) (id : string)
    (links : list NavLink) (i : nat) (l : NavLink) :
  id ∈ SECTION_IDS →
  is_Some (blocks d !! block_id id) →
  nav (foldl (show_one s) d SECTION_IDS) = Some links →
  querySelector_link id links = Some (i, l) →
  l = show_link (bool_decide (id = s)) l.
Proof.
  intros Hid Hb Hnav Hq. pose proof (show_all_fixed s d id Hid) as Hfix.
  apply (show_all_dom s SECTION_IDS) in Hb as [b Hb].
  revert Hb Hnav Hfix. generalize (foldl (show_one s) d SECTION_IDS) as d'.
  intros d' Hb Hnav Hfix.
  unfold show_one in Hfix. rewrite Hb, Hnav in Hfix. cbn [mbind option_bind] in Hfix.
  rewrite Hq in Hfix. apply (f_equal nav) in Hfix. cbn [nav] in Hfix.
  rewrite Hnav in Hfix. injection Hfix as Hfix.
  apply list_find_Some in Hq as (Hi & _ & _).
  apply (f_equal (λ ls, ls !! i)) in Hfix.
  rewrite list_lookup_insert_eq in Hfix by (by eapply lookup_lt_Some).
  unfold show_link. congruence.
Qed.

Lemma filter_ext_elem {A} (P Q : A → Prop)
    `{∀ x, Decision (P x)} `{∀ x, Decision (Q x)} (l : list A) :
  (∀ x, x ∈ l → P x ↔ Q x) → filter P l = filter Q l.
Proof.
  induction l as [|a l IH]; intros HPQ; [done|].
  rewrite !filter_cons.
  assert (P a ↔ Q a) as Ha by (apply HPQ; left).
  rewrite IH by (intros; apply HPQ; by right).
  destruct (decide (P a)), (decide (Q a)); tauto || done.
Qed.

Lemma only_section (s : string) :
  s ∈ SECTION_IDS → filter (λ id, id = s) SECTION_IDS = [s].
Proof.
  unfold SECTION_IDS. intros Hs.
  repeat (apply elem_of_cons in Hs as [->|Hs]; [by vm_compute|]).
  by apply elem_of_nil in Hs.
Qed.

Lemma show_all_is_shown (s : string) (d : NavDom) (id : string) :
  id ∈ SECTION_IDS →
  is_Some (blocks d !! block_id id) →
  is_shown (foldl (show_one s) d SECTION_IDS) id = bool_decide (id = s).
Proof.
  intros Hid Hb. apply (show_all_dom s SECTION_IDS) in Hb as [b Hb].
  unfold is_shown. rewrite Hb.
  rewrite (show_all_block s d id b Hid Hb). simpl. apply negb_involutive.
Qed.

Lemma show_all_visible_sections (s : string) (d : NavDom) :
  s ∈ SECTION_IDS →
  (∀ id, id ∈ SECTION_IDS → is_Some (blocks d !! block_id id)) →
  visible_sections (foldl (show_one s) d SECTION_IDS) = [s].
Proof.
  intros Hs Hall. unfold visible_sections. rewrite <- (only_section s Hs).
  apply filter_ext_elem. intros id Hid.
  rewrite show_all_is_shown by auto. apply bool_decide_eq_true.
Qed.

(** C1.  For a recognized section identifier [s], on a page where the
    container [block-<id>] of every section exists, after
    [showSection(s, u)] (for either [u]) the sections shown are exactly
    [s]: the container of [s] has [hidden = false] and the class
    [is-visible], every other section container has [hidden = true] and
    lacks the class. *)
Theorem showSection_exactly_one_visible (s : string) (u : bool) (p : Page) :
  s ∈ SECTION_IDS →
  (∀ id, id ∈ SECTION_IDS → is_Some (blocks (navdom p) !! block_id id)) →
  visible_sections (navdom (showSection s u p)) = [s] ∧
  ∀ id, id ∈ SECTION_IDS →
    ∃ b, blocks (navdom (showSection s u p)) !! block_id id = Some b ∧
         block_hidden b = negb (bool_decide (id = s)) ∧
         ("is-visible" ∈ block_classList b ↔ id = s).
Proof.
  intros Hs Hall. rewrite navdom_showSection. split.
  - by apply show_all_visible_sections.
  - intros id Hid.
    destruct (proj2 (show_all_dom s SECTION_IDS (navdom p) (block_id id))
                (Hall id Hid)) as [b Hb].
    exists b. split; [done|].
    rewrite (show_all_block s (navdom p) id b Hid Hb). simpl. split; [done|].
    rewrite classList_toggle_elem. apply bool_decide_eq_true.
Qed.

(** C6.  [showSection] is idempotent on what the navigator shows:
    calling [showSection(s, u)] twice in a row leaves every section
    container (class list and [hidden]) and every nav link (class list)
    exactly as one call does.  This holds of every [s], recognized or
    not. *)
Theorem showSection_idempotent (s : string) (u : bool) (p : Page) :
  navdom (showSection s u (showSection s u p)) = navdom (showSection s u p).
Proof.
  rewrite !navdom_showSection.
  apply foldl_twice; [apply show_one_comm | apply show_one_idem].
Qed.

Lemma unrecognized_not_visible (s id : string) :
  s ∉ SECTION_IDS → id ∈ SECTION_IDS → bool_decide (id = s) = false.
Proof. intros Hs Hid. apply bool_decide_eq_false. by intros ->. Qed.

(** C10, as the code has it.  For an identifier that is not a section
    identifier, [showSection] hides every existing section container, so
    that no section is shown afterwards, and removes [active] from the
    nav link the selector finds for each recognized section whose
    container exists.  The nav links keep their [data-section]; links
    that no iteration finds are not promised to lose [active]. *)
Theorem showSection_unrecognized_hides_all (s : string) (u : bool) (p : Page) :
  s ∉ SECTION_IDS →
  visible_sections (navdom (showSection s u p)) = [] ∧
  (∀ id b, id ∈ SECTION_IDS →
     blocks (navdom (showSection s u p)) !! block_id id = Some b →
     block_hidden b = true ∧ "is-visible" ∉ block_classList b) ∧
  (∀ id links i l, id ∈ SECTION_IDS →
     is_Some (blocks (navdom p) !! block_id id) →
     nav (navdom (showSection s u p)) = Some links →
     querySelector_link id links = Some (i, l) →
     "active" ∉ link_classList l) ∧
  link_sections (navdom (showSection s u p)) = link_sections (navdom p).
Proof.
  intros Hs. rewrite navdom_showSection.
  assert (∀ id b, id ∈ SECTION_IDS →
            blocks (foldl (show_one s) (navdom p) SECTION_IDS) !! block_id id
            = Some b →
            block_hidden b = true ∧ "is-visible" ∉ block_classList b) as Hblocks.
  { intros id b Hid Hb.
    rewrite (show_all_block s (navdom p) id b Hid Hb).
    rewrite (unrecognized_not_visible s id Hs Hid).
    unfold show_block. cbn [block_hidden block_classList negb].
    split; [done|]. rewrite classList_toggle_elem. done. }
  split_and!.
  - unfold visible_sections. apply elem_of_nil_inv.
    intros id [Hshown Hid]%list_elem_of_filter. revert Hshown. unfold is_shown.
    destruct (blocks _ !! block_id id) as [b|] eqn:Hb; [|done].
    destruct (Hblocks id b Hid Hb) as [-> _]. done.
  - exact Hblocks.
  - intros id links i l Hid Hb Hnav Hq.
    rewrite (show_all_link s (navdom p) id links i l Hid Hb Hnav Hq).
    rewrite (unrecognized_not_visible s id Hs Hid).
    unfold show_link, set_link_class. cbn [link_classList].
    rewrite classList_toggle_elem. done.
  - apply show_all_link_sections.
Qed.


Lemma split_at_app (c : ascii) (s1 s2 : string) :
  has_char c s1 = false → split_at c (s1 +:+ String c s2) = (s1, Some s2).
Proof.
  induction s1 as [|a s1 IH]; cbn [has_char]; intros Hc.
  - change (split_at c (String c s2) = ("", Some s2)).
    cbn [split_at]. by rewrite decide_True.
  - change (split_at c (String a (s1 +:+ String c s2)) = (String a s1, Some s2)).
    apply orb_false_elim in Hc as [Ha Hc]. apply bool_decide_eq_false in Ha.
    cbn [split_at]. rewrite decide_False by done. by rewrite (IH Hc).
Qed.

Lemma split_at_absent (c : ascii) (s : string) :
  has_char c s = false → split_at c s = (s, None).
Proof.
  induction s as [|a s IH]; cbn [has_char split_at]; intros Hc; [done|].
  apply orb_false_elim in Hc as [Ha Hc]. apply bool_decide_eq_false in Ha.
  rewrite decide_False by done. by rewrite (IH Hc).
Qed.

Lemma strip_leading_hash (q s : string) :
  strip_leading (q +:+ String "#" s) = strip_leading q +:+ String "#" s.
Proof.
  induction q as [|a q IH]; [done|].
  change (String a q +:+ String "#" s) with (String a (q +:+ String "#" s)).
  cbn [strip_leading]. by destruct (is_c0_or_space a).
Qed.

Lemma strip_trailing_keep (q t : string) :
  strip_trailing t = t → t ≠ "" → strip_trailing (q +:+ t) = q +:+ t.
Proof.
  intros Ht Hne. induction q as [|a q IH]; [done|].
  change (String a q +:+ t) with (String a (q +:+ t)).
  cbn [strip_trailing]. rewrite IH.
  destruct (q +:+ t) eqn:E; [|done]. by destruct q.
Qed.

Lemma remove_tab_newline_app (q t : string) :
  remove_tab_newline (q +:+ t) = remove_tab_newline q +:+ remove_tab_newline t.
Proof.
  induction q as [|a q IH]; [done|].
  change (String a q +:+ t) with (String a (q +:+ t)).
  cbn [remove_tab_newline]. rewrite IH. by destruct (is_tab_or_newline a).
Qed.

Lemma has_char_strip_leading (c : ascii) (q : string) :
  has_char c q = false → has_char c (strip_leading q) = false.
Proof.
  induction q as [|a q IH]; [done|]. cbn [strip_leading].
  destruct (is_c0_or_space a); [|done]. cbn [has_char].
  intros [_ ?]%orb_false_elim. auto.
Qed.

Lemma has_char_remove_tab_newline (c : ascii) (q : string) :
  has_char c q = false → has_char c (remove_tab_newline q) = false.
Proof.
  induction q as [|a q IH]; [done|]. cbn [remove_tab_newline has_char].
  intros [Ha ?]%orb_false_elim.
  destruct (is_tab_or_newline a); cbn [has_char]; [auto|].
  rewrite Ha. cbn. auto.
Qed.

Lemma not_encoded_not_stripped (a : ascii) :
  in_fragment_encode_set a = false →
  is_c0_or_space a = false ∧ is_tab_or_newline a = false.
Proof.
  unfold in_fragment_encode_set, is_c0_or_space, is_tab_or_newline.
  intros H. repeat apply orb_false_elim in H as [H ?].
  split; [done|]. apply N.leb_gt in H.
  repeat (apply orb_false_intro); apply N.eqb_neq; lia.
Qed.

Lemma fragment_plain_cons (a : ascii) (s : string) :
  fragment_plain (String a s) = true →
  in_fragment_encode_set a = false ∧ fragment_plain s = true.
Proof.
  cbn [fragment_plain]. intros [Ha ?]%andb_true_iff.
  by apply negb_true_iff in Ha.
Qed.

Lemma fragment_plain_strip_trailing (s : string) :
  fragment_plain s = true → strip_trailing s = s.
Proof.
  induction s as [|a s IH]; [done|].
  intros [Ha Hs]%fragment_plain_cons.
  apply not_encoded_not_stripped in Ha as [Ha _].
  cbn [strip_trailing]. rewrite (IH Hs), Ha. by destruct s.
Qed.

Lemma fragment_plain_remove_tab_newline (s : string) :
  fragment_plain s = true → remove_tab_newline s = s.
Proof.
  induction s as [|a s IH]; [done|].
  intros [Ha Hs]%fragment_plain_cons.
  apply not_encoded_not_stripped in Ha as [_ Ha].
  cbn [remove_tab_newline]. by rewrite (IH Hs), Ha.
Qed.

Lemma fragment_plain_encode (s : string) :
  fragment_plain s = true → encode_fragment s = s.
Proof.
  induction s as [|a s IH]; [done|].
  intros [Ha Hs]%fragment_plain_cons.
  cbn [encode_fragment]. by rewrite (IH Hs), Ha.
Qed.

(** The reference [path#id] as the URL parser reads it: whatever the
    path, as long as it holds no [#], the fragment of the result is the
    plain, non-empty [id]. *)
Lemma parse_url_split (path id : string) :
  has_char "#" path = false → truthy id = true → fragment_plain id = true →
  parse_url (path +:+ "#" +:+ id)
  = (let '(path', query) :=
       split_at "?"%char (remove_tab_newline (strip_leading path)) in
     mkURL path' (url_component "?" query) ("#" +:+ id)).
Proof.
  intros Hh Hid Hp. unfold parse_url.
  change (path +:+ "#" +:+ id) with (path +:+ String "#" id).
  rewrite strip_leading_hash.
  rewrite strip_trailing_keep; [| |done].
  2:{ cbn [strip_trailing]. rewrite (fragment_plain_strip_trailing _ Hp).
      by destruct id. }
  rewrite remove_tab_newline_app.
  change (remove_tab_newline (String "#" id))
    with (String "#" (remove_tab_newline id)).
  rewrite (fragment_plain_remove_tab_newline _ Hp).
  rewrite split_at_app
    by by apply has_char_remove_tab_newline, has_char_strip_leading.
  destruct (split_at "?"%char (remove_tab_newline (strip_leading path))).
  cbn [fmap option_fmap option_map].
  rewrite (fragment_plain_encode _ Hp). by destruct id.
Qed.


Lemma path_byte_ok_spec (a : ascii) :
  path_byte_ok a = true →
  is_c0_or_space a = false ∧ is_tab_or_newline a = false
  ∧ a ≠ "#"%char ∧ a ≠ "?"%char.
Proof.
  unfold path_byte_ok, is_c0_or_space, is_tab_or_newline.
  intros [[Hlo _]%andb_true_iff Hin]%andb_true_iff.
  apply N.ltb_lt in Hlo. apply negb_true_iff, bool_decide_eq_false in Hin.
  split_and!.
  - apply N.leb_gt. lia.
  - repeat (apply orb_false_intro); apply N.eqb_neq; lia.
  - intros ->. apply Hin. by left.
  - intros ->. apply Hin. right. by left.
Qed.

Lemma path_bytes_ok_spec (s : string) :
  path_bytes_ok s = true →
  strip_leading s = s ∧ remove_tab_newline s = s
  ∧ has_char "#" s = false ∧ has_char "?" s = false.
Proof.
  induction s as [|a s IH]; [done|]. cbn [path_bytes_ok].
  intros [Ha Hs]%andb_true_iff.
  apply path_byte_ok_spec in Ha as (Hc & Ht & Hh & Hq).
  destruct (IH Hs) as (_ & Hr & Hh' & Hq').
  cbn [strip_leading remove_tab_newline has_char].
  rewrite Hc, Ht, Hr, Hh', Hq'.
  by rewrite !bool_decide_eq_false_2.
Qed.

Lemma local_path_bytes_ok (s : string) :
  local_path s = true → path_bytes_ok s = true.
Proof.
  unfold local_path. by intros [[_ ?]%andb_true_iff _]%andb_true_iff.
Qed.

(** For a local path the parser gives back the path, no query, and the
    fragment. *)
Lemma parse_url_local (path id : string) :
  local_path path = true → truthy id = true → fragment_plain id = true →
  parse_url (path +:+ "#" +:+ id) = mkURL path "" ("#" +:+ id).
Proof.
  intros Hl Hid Hp.
  destruct (path_bytes_ok_spec _ (local_path_bytes_ok _ Hl))
    as (Hs & Hr & Hh & Hq).
  rewrite parse_url_split by done. rewrite Hs, Hr.
  by rewrite (split_at_absent _ _ Hq).
Qed.



(** C4.  A [hashchange] event whose fragment is not a section identifier
    changes nothing: the listener does not call [showSection], and the
    page (section containers, nav links, scroll position, history) is
    exactly as before; there is no fallback to the default section. *)
Theorem hashchange_unrecognized_ignored (p : Page) :
  slice1 (location_hash p) ∉ SECTION_IDS →
  hashchange_listener p = p ∧ on_hashchange p = p.
Proof.
  intros Hh. assert (hashchange_listener p = p) as Hl.
  { unfold hashchange_listener, includes.
    by rewrite bool_decide_eq_false_2. }
  split; [done|]. unfold on_hashchange. by destruct (nav (navdom p)).
Qed.

(** ** Content loader *)

Section UpdateFirstLookup.
Context {A : Type} (P : A → Prop) `{∀ x, Decision (P x)}.

Lemma update_first_lookup (f : A → A) (l : list A) (i : nat) :
  update_first P f l !! i
  = (λ x, if decide (fst <$> list_find P l = Some i) then f x else x)
      <$> l !! i.
Proof.
  revert i. induction l as [|a l IH]; intros i; [done|].
  cbn [update_first list_find]. destruct (decide (P a)) as [Ha|Ha].
  - destruct i as [|i]; cbn; [done|]. by destruct (l !! i).
  - destruct i as [|i]; cbn.
    + by destruct (list_find P l) as [[j x]|].
    + rewrite IH. destruct (l !! i) as [x|]; cbn; [|done].
      f_equal. destruct (list_find P l) as [[j y]|]; cbn; [|done].
      repeat case_decide; congruence.
Qed.

Lemma list_find_update_first_pos (Q : A → Prop) `{∀ x, Decision (Q x)}
    (f : A → A) (l : list A) :
  (∀ x, P (f x) ↔ P x) →
  fst <$> list_find P (update_first Q f l) = fst <$> list_find P l.
Proof.
  intros Hf. induction l as [|a l IH]; [done|].
  cbn [update_first]. destruct (decide (Q a)) as [Hq|Hq]; cbn [list_find].
  - destruct (decide (P a)) as [Ha|Ha].
    + by rewrite decide_True by (by apply Hf).
    + by rewrite decide_False by (by rewrite Hf).
  - destruct (decide (P a)); [done|].
    rewrite <- !option_fmap_compose.
    change (fst ∘ prod_map S id) with (S ∘ (fst : nat * A → nat)).
    by rewrite !option_fmap_compose, IH.
Qed.
End UpdateFirstLookup.

Lemma array_entry_None (entries : list (string * JValue)) (k : string) :
  k ∉ entries.*1 → array_entry entries k = None.
Proof.
  induction entries as [|[k' v] es IH]; intros Hk; [done|].
  cbn in *. apply not_elem_of_cons in Hk as [Hne Hk].
  rewrite decide_False by done. auto.
Qed.

Lemma array_entry_Some (entries : list (string * JValue)) (k : string)
    (xs : list JValue) :
  NoDup entries.*1 →
  (k, JArray xs) ∈ entries ↔ array_entry entries k = Some xs.
Proof.
  induction entries as [|[k' v] es IH]; intros Hnd.
  - split; [by intros ?%elem_of_nil | done].
  - cbn in *. apply NoDup_cons in Hnd as [Hk' Hnd].
    rewrite elem_of_cons, IH by done. destruct (decide (k' = k)) as [->|Hne].
    + rewrite (array_entry_None es k Hk'). split.
      * intros [[= <-]|?]; [done|congruence].
      * destruct v; intros [= ->]. by left.
    + split; [|by right]. intros [[= ? ?]|?]; [congruence|done].
Qed.



Lemma set_grids_same (p : Page) : set_grids (grids p) p = p.
Proof. by destruct p. Qed.

Lemma flat_lookup (gs : list Grid) (i : nat) (g : Grid) :
  flat gs → gs !! i = Some g → grid_depth g = 0.
Proof. intros Hf Hg. by apply (Forall_lookup_1 _ _ _ _ Hf Hg). Qed.

Lemma plain_keys_cons (k : string) (v : JValue)
    (entries : list (string * JValue)) :
  plain_keys ((k, v) :: entries) ↔ css_plain k = true ∧ plain_keys entries.
Proof.
  unfold plain_keys. rewrite fmap_cons.
  apply (Forall_cons (λ k, css_plain k = true)).
Qed.

Lemma showSection_frame (s : string) (u : bool) (p : Page) :
  grids (showSection s u p) = grids p ∧
  other_btns (showSection s u p) = other_btns p ∧
  contentData (showSection s u p) = contentData p ∧
  console (showSection s u p) = console p.
Proof.
  unfold showSection.
  repeat match goal with
         | |- context [match ?x with _ => _ end] => destruct x
         end; done.
Qed.

Lemma showSection_false_history (s : string) (p : Page) :
  history (showSection s false p) = history p.
Proof.
  unfold showSection.
  repeat match goal with
         | |- context [match ?x with _ => _ end] => destruct x
         end; done.
Qed.

Lemma initial_section_eq (hash : string) :
  (if includes SECTION_IDS (or_else (slice1 hash) DEFAULT_SECTION)
   then or_else (slice1 hash) DEFAULT_SECTION else DEFAULT_SECTION)
  = if bool_decide (slice1 hash ∈ SECTION_IDS)
    then slice1 hash else DEFAULT_SECTION.
Proof.
  unfold includes, or_else. destruct (slice1 hash) as [|a rest]; [done|].
  cbn [truthy]. by case_bool_decide.
Qed.

Lemma initial_section_recognized (fragment : string) :
  (if bool_decide (fragment ∈ SECTION_IDS) then fragment else DEFAULT_SECTION)
  ∈ SECTION_IDS.
Proof. case_bool_decide; [done|]. by left. Qed.

Section ContentLoaderProperties.
Context (querySelector : string → Page → Outcome (option Element)).
Context (parse_markup : string → MarkupContent).

Abbreviation populate_one := (populate_one querySelector parse_markup).
Abbreviation populate_entries := (populate_entries querySelector parse_markup).
Abbreviation populateGrids := (populateGrids querySelector parse_markup).
Abbreviation loadContent := (loadContent querySelector parse_markup).
Abbreviation assign_grid := (assign_grid parse_markup).
Abbreviation filled := (filled parse_markup).
Abbreviation fill_one := (fill_one parse_markup).
Abbreviation populated := (populated parse_markup).
Abbreviation joinable := (joinable parse_markup).

(** *** The loop on grids that are filled in place *)

Lemma fill_one_eq (gs : list Grid) (k : string) (v : JValue) :
  fill_one gs (k, v) =
  match v with
  | JArray xs =>
      update_first (λ g, grid_section g = k) (filled (join_text xs)) gs
  | _ => gs
  end.
Proof.
  unfold fill_one, first_grid.
  destruct v as [| | | |xs|]; try by destruct (list_find _ gs) as [[??]|].
  rewrite <- (list_find_update_first _ (filled (join_text xs)) gs).
  by destruct (list_find _ gs) as [[??]|].
Qed.

Lemma fill_all_lookup (entries : list (string * JValue)) :
  ∀ (gs : list Grid) (i : nat) (g : Grid),
    NoDup entries.*1 → gs !! i = Some g →
    foldl fill_one gs entries !! i = Some (populated entries gs i g).
Proof.
  induction entries as [|[k v] es IH]; intros gs i g Hnd Hg.
  - cbn. rewrite Hg. unfold populated. by case_decide.
  - cbn [foldl]. cbn in Hnd. apply NoDup_cons in Hnd as [Hk Hnd].
    rewrite fill_one_eq. unfold populated. cbn [array_entry].
    destruct v as [| | | |xs|];
      try (rewrite (IH gs i g Hnd Hg); unfold populated;
           destruct (decide (k = grid_section g)) as [->|];
           [by rewrite (array_entry_None es _ Hk); repeat case_decide|done]).
    set (f := filled (join_text xs)).
    set (gs1 := update_first (λ g0, grid_section g0 = k) f gs).
    assert (∀ sec, fst <$> first_grid sec gs1 = fst <$> first_grid sec gs)
      as Hpos.
    { intros sec. by apply list_find_update_first_pos. }
    assert (gs1 !! i
            = Some (if decide (fst <$> first_grid k gs = Some i)
                    then f g else g)) as Hg1.
    { unfold gs1. rewrite update_first_lookup, Hg. done. }
    rewrite (IH gs1 i _ Hnd Hg1). f_equal. unfold populated.
    assert (grid_section
              (if decide (fst <$> first_grid k gs = Some i)
               then f g else g) = grid_section g) as Hsec
      by (by case_decide).
    rewrite Hsec, Hpos.
    destruct (decide (k = grid_section g)) as [->|Hne].
    + rewrite (array_entry_None es _ Hk). by repeat case_decide.
    + rewrite (decide_False (P := fst <$> first_grid k gs = Some i)).
      * done.
      * intros Hi. apply Hne.
        destruct (first_grid k gs) as [[j g0]|] eqn:Hq; [|done].
        injection Hi as ->. unfold first_grid in Hq.
        apply list_find_Some in Hq as (Hl & Hs & _). congruence.
Qed.

Lemma length_fill_all (entries : list (string * JValue)) (gs : list Grid) :
  length (foldl fill_one gs entries) = length gs.
Proof.
  revert gs. induction entries as [|[k v] es IH]; intros gs; cbn [foldl]; [done|].
  rewrite IH. unfold fill_one.
  destruct (first_grid k gs) as [[i g]|], v;
    by rewrite ?length_insert.
Qed.

Lemma fill_all_sections (entries : list (string * JValue)) (gs : list Grid) :
  grid_section <$> foldl fill_one gs entries = grid_section <$> gs.
Proof.
  revert gs. induction entries as [|[k v] es IH]; intros gs; cbn [foldl]; [done|].
  rewrite IH, fill_one_eq. destruct v; try done.
  by apply update_first_fmap.
Qed.

Lemma fill_one_flat (gs : list Grid) (entry : string * JValue) :
  flat gs → flat (fill_one gs entry).
Proof.
  intros Hf. destruct entry as [k v]. unfold fill_one.
  destruct (first_grid k gs) as [[i g]|] eqn:Hq; [|done].
  destruct v; try done. apply Forall_insert; [done|].
  apply list_find_Some in Hq as (Hg & _). cbn. by eapply flat_lookup.
Qed.

Lemma fill_all_flat (entries : list (string * JValue)) (gs : list Grid) :
  flat gs → flat (foldl fill_one gs entries).
Proof.
  revert gs. induction entries as [|e es IH]; intros gs Hf; [done|].
  cbn [foldl]. by apply IH, fill_one_flat.
Qed.

(** *** The loop of the script *)

Lemma drop_nested_flat (gs : list Grid) : flat gs → drop_nested 0 gs = gs.
Proof.
  destruct gs as [|g gs]; [done|]. intros [Hg _]%Forall_cons.
  cbn [drop_nested]. rewrite Hg. by rewrite bool_decide_eq_false_2 by lia.
Qed.

Lemma assign_grid_flat (i : nat) (html : string) (gs : list Grid) (g : Grid) :
  flat gs → gs !! i = Some g → markup_grids (parse_markup html) = [] →
  assign_grid i html gs = <[ i := filled html g ]> gs.
Proof.
  intros Hf Hg Hm. unfold assign_grid, filled. rewrite Hg, Hm.
  rewrite (flat_lookup gs i g Hf Hg). cbn [fmap list_fmap app].
  rewrite drop_nested_flat by (by apply Forall_drop).
  symmetry. apply insert_take_drop. by eapply lookup_lt_Some.
Qed.

Lemma populate_entries_cons (entry : string * JValue)
    (rest : list (string * JValue)) (p : Page) :
  populate_entries (entry :: rest) p
  = match populate_one p entry with
    | Normal p' => populate_entries rest p'
    | Throw e p' => Throw e p'
    end.
Proof. reflexivity. Qed.

Lemma populateGrids_unguarded (p : Page) :
  contentData p = JNull ∨ typeof_object (contentData p) = false →
  populateGrids p = Normal p.
Proof.
  intros Hp. unfold populateGrids.
  destruct Hp as [-> | ->]; [done|]. by rewrite orb_true_r.
Qed.

(** Past its guard, [populateGrids] is its loop, then the reset of the
    expand buttons and [showSection] when the loop did not raise. *)
Lemma populateGrids_guarded (p : Page) :
  js_truthy (contentData p) = true → typeof_object (contentData p) = true →
  populateGrids p
  = match populate_entries (Object_entries (contentData p)) p with
    | Throw e q => Throw e q
    | Normal q =>
        Normal
          (showSection
             (if bool_decide (slice1 (location_hash q) ∈ SECTION_IDS)
              then slice1 (location_hash q) else DEFAULT_SECTION)
             false (reset_expand_btns q))
    end.
Proof.
  intros Ht Ho. unfold populateGrids. rewrite Ht, Ho. cbn [negb orb].
  destruct (populate_entries _ p) as [q|e q]; [|done].
  f_equal. by rewrite <- initial_section_eq.
Qed.

(** What is assumed of the selector engine from here on. *)
Hypothesis engine_ok : selector_engine_ok querySelector.

Lemma populate_one_fill (p : Page) (k : string) (v : JValue) :
  css_plain k = true → flat (grids p) →
  (∀ xs, v = JArray xs →
     ∃ html, Array_join "" xs = Some html
             ∧ markup_grids (parse_markup html) = []) →
  populate_one p (k, v) = Normal (set_grids (fill_one (grids p) (k, v)) p).
Proof.
  intros Hk Hf Hv. unfold populate_one, fill_one. rewrite (engine_ok k p Hk).
  destruct (first_grid k (grids p)) as [[i g]|] eqn:Hq; cbn;
    [|by rewrite set_grids_same].
  destruct v as [| | | |xs|]; try by rewrite set_grids_same.
  destruct (Hv xs eq_refl) as (html & Hj & Hm).
  unfold join_text. rewrite Hj. cbn.
  apply list_find_Some in Hq as (Hg & _).
  by rewrite (assign_grid_flat i html _ g Hf Hg Hm).
Qed.

(** On plain content and grids that do not nest, the loop returns, and
    fills the grids in place. *)
Lemma populate_entries_fill (entries : list (string * JValue)) :
  ∀ p, plain_keys entries → joinable entries → flat (grids p) →
    populate_entries entries p
    = Normal (set_grids (foldl fill_one (grids p) entries) p).
Proof.
  induction entries as [|[k v] es IH]; intros p Hk Hj Hf.
  - cbn. by rewrite set_grids_same.
  - apply plain_keys_cons in Hk as [Hk Hks].
    rewrite populate_entries_cons, populate_one_fill; [|done|done|].
    2:{ intros xs ->. apply (Hj k xs). by left. }
    rewrite IH; [done|done| |].
    + intros k' xs Hin. apply (Hj k' xs). by right.
    + cbn [grids set_grids]. by apply fill_one_flat.
Qed.

(** On plain keys the loop, however it ends, has changed the grids
    only. *)
Lemma populate_one_grids_only (p : Page) (k : string) (v : JValue) :
  css_plain k = true →
  ∃ gs, completion_state (populate_one p (k, v)) = set_grids gs p.
Proof.
  intros Hk. unfold populate_one. rewrite (engine_ok k p Hk).
  destruct (first_grid k (grids p)) as [[i g]|]; cbn;
    [|exists (grids p); by rewrite set_grids_same].
  destruct v as [| | | |xs|];
    try (exists (grids p); by rewrite set_grids_same).
  destruct (Array_join "" xs); cbn; [by eexists|].
  exists (grids p); by rewrite set_grids_same.
Qed.

Lemma populate_entries_grids_only (entries : list (string * JValue)) :
  ∀ p, plain_keys entries →
    ∃ gs, completion_state (populate_entries entries p) = set_grids gs p.
Proof.
  induction entries as [|[k v] es IH]; intros p Hk.
  - exists (grids p). cbn. by rewrite set_grids_same.
  - apply plain_keys_cons in Hk as [Hk Hks]. rewrite populate_entries_cons.
    destruct (populate_one_grids_only p k v Hk) as [gs Hgs].
    destruct (populate_one p (k, v)) as [p1|e p1]; cbn in Hgs; subst p1.
    + destruct (IH (set_grids gs p) Hks) as [gs' Hgs']. exists gs'.
      by rewrite Hgs'.
    + by exists gs.
Qed.

(** On plain keys the loop returns when every fragment list joins. *)
Lemma populate_entries_returns (entries : list (string * JValue)) :
  ∀ p, plain_keys entries →
    (∀ k xs, (k, JArray xs) ∈ entries → is_Some (Array_join "" xs)) →
    ∃ p', populate_entries entries p = Normal p'.
Proof.
  induction entries as [|[k v] es IH]; intros p Hk Hj; [by eexists|].
  apply plain_keys_cons in Hk as [Hk Hks]. rewrite populate_entries_cons.
  assert (∃ p1, populate_one p (k, v) = Normal p1) as [p1 ->].
  { unfold populate_one. rewrite (engine_ok k p Hk).
    destruct (first_grid k (grids p)) as [[i g]|]; cbn; [|by eexists].
    destruct v as [| | | |xs|]; try by eexists.
    destruct (Hj k xs) as [html ->]; [by left|]. by eexists. }
  apply IH; [done|]. intros k' xs Hin. apply (Hj k' xs). by right.
Qed.

Lemma populateGrids_returns (p : Page) :
  plain_keys (Object_entries (contentData p)) →
  (∀ k xs, (k, JArray xs) ∈ Object_entries (contentData p) →
           is_Some (Array_join "" xs)) →
  ∃ p', populateGrids p = Normal p'.
Proof.
  intros Hk Hj.
  destruct (js_truthy (contentData p) && typeof_object (contentData p))
    eqn:Hguard.
  - apply andb_true_iff in Hguard as [Ht Ho].
    rewrite (populateGrids_guarded p Ht Ho).
    destruct (populate_entries_returns _ p Hk Hj) as [q ->]. by eexists.
  - exists p. unfold populateGrids.
    apply andb_false_iff in Hguard as [-> | ->];
      [done | by rewrite orb_true_r].
Qed.

(** The whole of [populateGrids] on plain content. *)
Lemma populateGrids_plain (p : Page) :
  js_truthy (contentData p) = true → typeof_object (contentData p) = true →
  plain_keys (Object_entries (contentData p)) →
  joinable (Object_entries (contentData p)) →
  flat (grids p) →
  populateGrids p
  = Normal
      (showSection
         (if bool_decide (slice1 (location_hash p) ∈ SECTION_IDS)
          then slice1 (location_hash p) else DEFAULT_SECTION)
         false
         (reset_expand_btns
            (set_grids (foldl fill_one (grids p)
                              (Object_entries (contentData p))) p))).
Proof.
  intros Ht Ho Hk Hj Hf. rewrite (populateGrids_guarded p Ht Ho).
  by rewrite (populate_entries_fill _ p Hk Hj Hf).
Qed.



(** C5.  When the fetch fails (network error, non-success status, body
    that is not JSON), [loadContent] only logs the error: it does not
    reach [populateGrids], and grids, expand buttons, section
    containers, nav links, history and [contentData] are as before the
    load.  And [populateGrids] itself does nothing when [contentData]
    is [null] or is not an object: it returns with the page as it
    was. *)
Theorem loadContent_failure_keeps_page (o : FetchOutcome) (p q : Page) :
  (fetch_failed o →
   (∃ err, loadContent o p = console_error load_failed err p) ∧
   grids (loadContent o p) = grids p ∧
   other_btns (loadContent o p) = other_btns p ∧
   navdom (loadContent o p) = navdom p ∧
   main_scrollTop (loadContent o p) = main_scrollTop p ∧
   history (loadContent o p) = history p ∧
   contentData (loadContent o p) = contentData p) ∧
  (contentData q = JNull ∨ typeof_object (contentData q) = false →
   populateGrids q = Normal q).
Proof.
  split.
  - intros Hfail.
    assert (∃ err, loadContent o p = console_error load_failed err p)
      as [err Herr].
    { destruct o as [reason|ok st json]; cbn in *; [by eexists|].
      destruct ok; cbn; [|by eexists].
      destruct Hfail as [?| ->]; [done|by eexists]. }
    rewrite Herr. split_and!; [by eexists|done..].
  - apply populateGrids_unguarded.
Qed.

End ContentLoaderProperties.

(** ** Card toggle *)

Lemma toggleResource_no_full_text (c : CardDom) :
  card_text c = None → toggleResource c = c.
Proof. intros Hc. unfold toggleResource. by rewrite Hc. Qed.

Lemma expand_then_collapse_attrs (attrs : gmap string string) :
  attrs !! "aria-expanded" = Some "false" →
  <[ "aria-expanded" := "false" ]> (<[ "aria-expanded" := "true" ]> attrs) = attrs.
Proof. intros Ha. rewrite insert_insert_eq. by apply insert_id. Qed.

Lemma add_then_remove_class (c : string) (cl : gset string) :
  c ∉ cl → (cl ∪ {[ c ]}) ∖ {[ c ]} = cl.
Proof.
  intros Hc. apply set_eq. intros x.
  rewrite elem_of_difference, elem_of_union, elem_of_singleton.
  split; [tauto|]. intros Hx. split; [tauto|]. by intros ->.
Qed.

Lemma with_card_classes_classList (f : gset string → gset string)
    (c : CardDom) (t : CardText) (b : ExpandBtn) :
  card_classList (with_card_classes f c t b) = f <$> card_classList c.
Proof. unfold with_card_classes, card_classList. by destruct (card c). Qed.

Lemma with_card_classes_text (f : gset string → gset string)
    (c : CardDom) (t : CardText) (b : ExpandBtn) :
  card_text (with_card_classes f c t b) = Some t.
Proof. unfold with_card_classes. by destruct (card c). Qed.

Lemma with_card_classes_btn (f : gset string → gset string)
    (c : CardDom) (t : CardText) (b : ExpandBtn) :
  card_btn (with_card_classes f c t b) = b.
Proof. unfold with_card_classes. by destruct (card c). Qed.

Lemma with_card_classes_twice (f g : gset string → gset string)
    (c : CardDom) (t t' : CardText) (b b' : ExpandBtn) :
  with_card_classes g (with_card_classes f c t b) t' b'
  = with_card_classes (g ∘ f) c t' b'.
Proof. unfold with_card_classes. by destruct (card c). Qed.

Lemma with_card_classes_ext (f g : gset string → gset string)
    (c : CardDom) (t : CardText) (b : ExpandBtn) :
  (∀ cl, card_classList c = Some cl → f cl = g cl) →
  with_card_classes f c t b = with_card_classes g c t b.
Proof.
  unfold with_card_classes, card_classList.
  destruct (card c); intros H; [done| |]; by rewrite H.
Qed.

Lemma with_card_classes_same (c : CardDom) (t : CardText) (b : ExpandBtn) :
  card_text c = Some t → card_btn c = b → with_card_classes id c t b = c.
Proof.
  destruct c as [cd tx bt bc]. cbn. intros -> ->.
  unfold with_card_classes. cbn. by destruct cd.
Qed.

Lemma toggleResource_expand (c : CardDom) (t : CardText) :
  card_text c = Some t → full_display t ≠ "block" →
  toggleResource c
  = with_card_classes (λ cl, cl ∪ {[ "is-expanded" ]}) c
      (mkCardText "block" ((λ _, "none") <$> short_display t))
      (setAttribute "aria-expanded" "true"
         (mkExpandBtn "Read Less" (btn_attrs (card_btn c)))).
Proof.
  intros Ht Hfull. unfold toggleResource. rewrite Ht.
  by rewrite bool_decide_eq_false_2.
Qed.

Lemma toggleResource_collapse (c : CardDom) (t : CardText) :
  card_text c = Some t → full_display t = "block" →
  toggleResource c
  = with_card_classes (λ cl, cl ∖ {[ "is-expanded" ]}) c
      (mkCardText "none" ((λ _, "block") <$> short_display t))
      (setAttribute "aria-expanded" "false"
         (mkExpandBtn "Read More" (btn_attrs (card_btn c)))).
Proof.
  intros Ht Hfull. unfold toggleResource. rewrite Ht.
  by rewrite bool_decide_eq_true_2.
Qed.

Lemma toggleResource_on_block (f : gset string → gset string) (c : CardDom)
    (short : option string) (b : ExpandBtn) :
  toggleResource (with_card_classes f c (mkCardText "block" short) b)
  = with_card_classes ((λ cl, cl ∖ {[ "is-expanded" ]}) ∘ f) c
      (mkCardText "none" ((λ _, "block") <$> short))
      (setAttribute "aria-expanded" "false"
         (mkExpandBtn "Read More" (btn_attrs b))).
Proof.
  rewrite (toggleResource_collapse _ (mkCardText "block" short)
             (with_card_classes_text _ _ _ _) eq_refl).
  by rewrite with_card_classes_twice, with_card_classes_btn.
Qed.

Lemma toggleResource_on_none (f : gset string → gset string) (c : CardDom)
    (short : option string) (b : ExpandBtn) :
  toggleResource (with_card_classes f c (mkCardText "none" short) b)
  = with_card_classes ((λ cl, cl ∪ {[ "is-expanded" ]}) ∘ f) c
      (mkCardText "block" ((λ _, "none") <$> short))
      (setAttribute "aria-expanded" "true"
         (mkExpandBtn "Read Less" (btn_attrs b))).
Proof.
  assert ("none" ≠ "block") as Hne by done.
  rewrite (toggleResource_expand _ (mkCardText "none" short)
             (with_card_classes_text _ _ _ _) Hne).
  by rewrite with_card_classes_twice, with_card_classes_btn.
Qed.

(** C7, as the code has it.  On a card that the code reads as collapsed
    (the inline display of the full text is not [block]) one call makes
    the button read [Read Less] with [aria-expanded="true"], shows the
    full text ([block]), hides the short text ([none]) and adds
    [is-expanded]; a second call makes the button read [Read More] with
    [aria-expanded="false"], hides the full text ([none]), shows the
    short text ([block]) and removes [is-expanded].  The two calls give
    back the original card exactly when it was in the state a collapse
    writes ([collapsed]). *)
Theorem toggleResource_round_trip (c : CardDom) (t : CardText) :
  card_text c = Some t → full_display t ≠ "block" →
  (btn_textContent (card_btn (toggleResource c)) = "Read Less" ∧
   btn_attrs (card_btn (toggleResource c)) !! "aria-expanded" = Some "true" ∧
   card_text (toggleResource c)
   = Some (mkCardText "block" ((λ _, "none") <$> short_display t)) ∧
   card_classList (toggleResource c)
   = (λ cl, cl ∪ {[ "is-expanded" ]}) <$> card_classList c) ∧
  (btn_textContent (card_btn (toggleResource (toggleResource c))) = "Read More" ∧
   btn_attrs (card_btn (toggleResource (toggleResource c))) !! "aria-expanded"
   = Some "false" ∧
   card_text (toggleResource (toggleResource c))
   = Some (mkCardText "none" ((λ _, "block") <$> short_display t)) ∧
   ∀ cl, card_classList (toggleResource (toggleResource c)) = Some cl →
         "is-expanded" ∉ cl) ∧
  (collapsed c → toggleResource (toggleResource c) = c).
Proof.
  intros Ht Hfull.
  rewrite (toggleResource_expand c t Ht Hfull), toggleResource_on_block.
  rewrite !with_card_classes_classList, !with_card_classes_text,
    !with_card_classes_btn.
  cbn [full_display short_display btn_attrs btn_textContent setAttribute].
  split_and!; try done.
  - apply lookup_insert_eq.
  - apply lookup_insert_eq.
  - by destruct (short_display t).
  - destruct (card_classList c) as [cl0|]; [|done].
    intros cl [= <-]. cbn. rewrite elem_of_difference, elem_of_singleton. tauto.
  - intros ((short & Hshort & Hblock) & Htext & Haria & Hclass).
    rewrite Ht in Hshort. injection Hshort as ->.
    rewrite (with_card_classes_ext _ id).
    2:{ intros cl Hcl. cbn. apply add_then_remove_class. by apply Hclass. }
    apply with_card_classes_same.
    + rewrite Ht. cbn. by destruct Hblock as [-> | ->].
    + symmetry. unfold setAttribute. cbn [btn_textContent btn_attrs].
      rewrite expand_then_collapse_attrs by done. rewrite <- Htext.
      by destruct (card_btn c).
Qed.

(** On a collapsed card without an inline style on its short text, two
    toggles do not give back the original card: the short text ends with
    the inline display [block] where it had none.  (C7 as stated fails
    here.) *)
Lemma toggleResource_twice_rewrites_short_display :
  card_text plain_card = Some (mkCardText "none" (Some "")) ∧
  card_text (toggleResource (toggleResource plain_card))
  = Some (mkCardText "none" (Some "block")) ∧
  toggleResource (toggleResource plain_card) ≠ plain_card.
Proof.
  split_and!; [done..|]. intros Heq. apply (f_equal card_text) in Heq.
  vm_compute in Heq. discriminate Heq.
Qed.

(** ** Image modal *)

Lemma openModal_guarded (src title : string) (m : ModalDom) :
  modal m = None ∨ modalImg m = None → openModal src title m = Normal m.
Proof.
  unfold openModal. intros [-> | ->]; [done|]. by destruct (modal m).
Qed.

(** Opening sets the image source and the caption, reveals the modal and
    locks the page scroll; closing hides it and releases the scroll. *)
Lemma openModal_completes (src title : string) (m : ModalDom)
    (md : ModalEl) (img : ImgEl) (caption : string) :
  modal m = Some md → modalImg m = Some img → modalCaption m = Some caption →
  ∃ m', openModal src title m = Normal m' ∧
        (img_src <$> modalImg m') = Some src ∧
        modalCaption m' = Some (or_else title "") ∧
        (modal_hidden <$> modal m') = Some false ∧
        body_overflow m' = "hidden" ∧
        body_overflow (closeModal m') = "" ∧
        (modal_hidden <$> modal (closeModal m')) = Some true.
Proof.
  intros Hm Hi Hc. unfold openModal. rewrite Hm, Hi, Hc.
  eexists. split; [done|]. by cbn.
Qed.

Lemma closeModal_no_modal (m : ModalDom) :
  modal m = None → closeModal m = m.
Proof. intros Hm. unfold closeModal. by rewrite Hm. Qed.

(** C8 fails on the code.  With the modal and its image present but no
    [#modal-caption], [openModal] passes its guard, writes the image
    source and alternative text, and then raises a [TypeError] on
    [modalCaption.textContent = ...]: the modal stays hidden and the call
    is neither completed nor a no-op. *)
Theorem openModal_missing_caption_throws (src title : string)
    (md : ModalEl) (img : ImgEl) (overflow : string) (focused : bool) :
  openModal src title (mkModalDom (Some md) (Some img) None overflow focused)
  = Throw TypeError
      (mkModalDom (Some md) (Some (mkImgEl src (or_else title "Image")))
                  None overflow focused).
Proof. reflexivity. Qed.

Example openModal_captionless :
  openModal "img/vpc.png" "VPC" captionless_modal
  = Throw TypeError
      (mkModalDom (Some (mkModalEl true true true))
                  (Some (mkImgEl "img/vpc.png" "VPC")) None "" false).
Proof. reflexivity. Qed.

(** ** The properties on the example pages *)

Ltac in_list :=
  repeat first [ apply list_elem_of_here | apply list_elem_of_further ].

Ltac decide_by_computation :=
  apply (bool_decide_unpack _); vm_compute; exact I.

Lemma example_blocks_all :
  ∀ id, id ∈ SECTION_IDS → is_Some (example_blocks !! block_id id).
Proof.
  unfold SECTION_IDS. intros id Hid.
  repeat (apply elem_of_cons in Hid as [->|Hid]; [by vm_compute; eexists|]).
  by apply elem_of_nil in Hid.
Qed.

Lemma bogus_unrecognized : "bogus" ∉ SECTION_IDS.
Proof. decide_by_computation. Qed.

(** C1 on the example page: after [showSection("storage", true)] the
    sections shown are [storage] alone. *)
Lemma showSection_exactly_one_visible_witness :
  "storage" ∈ SECTION_IDS ∧
  visible_sections (navdom (showSection "storage" true (example_page "" JNull)))
  = ["storage"].
Proof.
  assert ("storage" ∈ SECTION_IDS) as Hs by in_list.
  split; [exact Hs|].
  exact (proj1 (showSection_exactly_one_visible "storage" true
                  (example_page "" JNull) Hs example_blocks_all)).
Defined.

(** C10 on the example page: [showSection("bogus", true)] leaves no
    section shown. *)
Lemma showSection_unrecognized_hides_all_witness :
  visible_sections (navdom (showSection "bogus" true (example_page "" JNull)))
  = [].
Proof.
  exact (proj1 (showSection_unrecognized_hides_all "bogus" true
                  (example_page "" JNull) bogus_unrecognized)).
Defined.

(** On a page without the container of [compute], [showSection] with an
    unrecognized identifier leaves the nav link of [compute] active.
    (C10 as stated fails here.) *)
Lemma showSection_unrecognized_keeps_orphan_link :
  ("bogus" ∉ SECTION_IDS) ∧
  (∃ links l,
     nav (navdom (showSection "bogus" true orphan_link_page)) = Some links ∧
     l ∈ links ∧ "active" ∈ link_classList l).
Proof.
  split; [apply bogus_unrecognized|].
  exists [ mkNavLink "compute" {[ "nav-link"; "active" ]};
           mkNavLink "storage" {[ "nav-link" ]} ],
         (mkNavLink "compute" {[ "nav-link"; "active" ]}).
  split_and!; [by vm_compute | in_list | decide_by_computation].
Qed.

(** C4 on the example page loaded at [#bogus]. *)
Lemma hashchange_unrecognized_ignored_witness :
  on_hashchange (example_page "#bogus" JNull) = example_page "#bogus" JNull.
Proof.
  exact (proj2 (hashchange_unrecognized_ignored (example_page "#bogus" JNull)
                  bogus_unrecognized)).
Defined.

Lemma block_card_collapsed : collapsed block_card.
Proof.
  split_and!; [by exists (Some "block"); auto | done | done |].
  intros cl [= <-]. decide_by_computation.
Qed.

(** C7 on a card in the state a collapse writes: two toggles give it
    back. *)
Lemma toggleResource_round_trip_witness :
  toggleResource (toggleResource block_card) = block_card.
Proof.
  assert ("none" ≠ "block") as Hne by done.
  exact (proj2 (proj2 (toggleResource_round_trip block_card
                         (mkCardText "none" (Some "block")) eq_refl Hne))
               block_card_collapsed).
Defined.


(** The example engine is one the assumption on the selector engine
    holds of. *)
Lemma strip_prefix_app (pre s : string) : strip_prefix pre (pre +:+ s) = Some s.
Proof.
  induction pre as [|a pre IH]; [done|].
  change (String a pre +:+ s) with (String a (pre +:+ s)).
  cbn [strip_prefix]. by rewrite decide_True.
Qed.

Lemma strip_closing_app (key : string) :
  strip_closing (key +:+ dquote +:+ "]") = Some key.
Proof.
  induction key as [|a key IH]; [done|].
  change (String a key +:+ dquote +:+ "]")
    with (String a (key +:+ dquote +:+ "]")).
  cbn [strip_closing]. rewrite bool_decide_eq_false_2.
  - by rewrite IH.
  - change (dquote +:+ "]") with (String "034" (String "]" "")).
    intros [= _ Hk]. destruct key as [|b [|c key]]; by vm_compute in Hk.
Qed.

Lemma selector_key_grid_selector (key : string) :
  selector_key (grid_selector key) = Some key.
Proof.
  unfold selector_key, grid_selector.
  change (".resource-grid[data-section=" +:+ dquote +:+ key +:+ dquote +:+ "]")
    with ((".resource-grid[data-section=" +:+ dquote)
          +:+ (key +:+ dquote +:+ "]")).
  rewrite strip_prefix_app. apply strip_closing_app.
Qed.

Lemma strict_engine_ok : selector_engine_ok strict_engine.
Proof.
  intros key p Hk. unfold strict_engine.
  by rewrite selector_key_grid_selector, Hk.
Qed.

Ltac entry_cases H :=
  cbn in H;
  repeat (apply elem_of_cons in H as [[= -> ->]|H]; [by eexists|]);
  by apply elem_of_nil in H.


Lemma example_parser_joinable (entries : list (string * JValue)) :
  (∀ k xs, (k, JArray xs) ∈ entries → is_Some (Array_join "" xs)) →
  joinable example_parser entries.
Proof. intros Hj k xs Hin. destruct (Hj k xs Hin) as [html ->]. by exists html. Qed.



(** Whatever the selector engine, the loop ends where the engine
    rejects a selector: the entries after it are not reached. *)
Lemma populate_entries_raises
    (querySelector : string → Page → Outcome (option Element))
    (parse_markup : string → MarkupContent)
    (k : string) (v : JValue) (rest : list (string * JValue))
    (p : Page) (e : JsError) :
  querySelector (grid_selector k) p = Raises e →
  populate_entries querySelector parse_markup ((k, v) :: rest) p = Throw e p.
Proof. intros Hq. cbn. by rewrite Hq. Qed.



(** ** The model at work on the example page *)

Example load_with_fragment :
  let p := loadContent strict_engine example_parser
             (FetchResponse true "OK" (Some example_content))
             (example_page "#storage" JNull) in
  grid_innerHTML <$> grids p
  = ["<div>A</div>"; ""; "<div>B</div>"; ""; ""; ""; ""; ""; ""] ∧
  visible_sections (navdom p) = ["storage"] ∧
  history p = history (example_page "#storage" JNull) ∧
  console p = [].
Proof. by vm_compute. Qed.

Example load_without_fragment :
  visible_sections
    (navdom (loadContent strict_engine example_parser
               (FetchResponse true "OK" (Some example_content))
               (example_page "" JNull)))
  = ["compute"].
Proof. by vm_compute. Qed.

Example load_not_found :
  loadContent strict_engine example_parser
    (FetchResponse false "Not Found" None) (example_page "#storage" JNull)
  = console_error load_failed (HttpError "Not Found")
      (example_page "#storage" JNull).
Proof. reflexivity. Qed.

(** A fragment that is an object with a key [toString] makes the join,
    and with it the load, end in a [TypeError]. *)
Example load_unprintable_fragment :
  let v := JObject [ ("compute", JArray [JObject [("toString", JNumber "1")]]) ] in
  let p := loadContent strict_engine example_parser
             (FetchResponse true "OK" (Some v)) (example_page "" JNull) in
  grid_innerHTML <$> grids p = ["" ; ""; ""; ""; ""; ""; ""; ""; ""] ∧
  visible_sections (navdom p) = [] ∧
  console p = [(load_failed, TypeError)].
Proof. by vm_compute. Qed.

(** Markup assigned to the grid of [compute] that holds a grid for
    [storage]: the later lookup finds that grid, which comes first in
    the document, and the page's own grid of [storage] keeps its
    markup. *)
Example load_nested_grid :
  let p := loadContent strict_engine nesting_parser
             (FetchResponse true "OK" (Some nesting_content))
             (example_page "" JNull) in
  (λ g, (grid_section g, grid_innerHTML g, grid_depth g)) <$> take 4 (grids p)
  = [ ("compute", storage_grid_markup, 0); ("storage", "<div>B</div>", 1);
      ("networking", "", 0); ("storage", "", 0) ] ∧
  length (grids p) = 10 ∧
  console p = [].
Proof. by vm_compute. Qed.

(** The URL parser percent-encodes what a fragment cannot hold. *)
Example parse_url_encodes_fragment :
  parse_url "/aws/index.html#a b" = mkURL "/aws/index.html" "" "#a%20b" ∧
  location_hash (showSection "a b" true (example_page "" JNull)) = "#a%20b".
Proof. by vm_compute. Qed.

Example show_replaces_current_entry :
  let h := mkHistory [mkURL "/" "" ""]
             (mkURL "/aws/index.html" "?v=2" "#compute") [] in
  let p := mkPage (mkNavDom example_blocks (Some example_nav)) (Some 120)
             example_grids [] h JNull [] in
  history (showSection "storage" true p)
  = mkHistory [mkURL "/" "" ""] (mkURL "/aws/index.html" "" "#storage") [] ∧
  main_scrollTop (showSection "storage" true p) = Some 0.
Proof. by vm_compute. Qed.

Example join_nested :
  Array_join "" [JString "a"; JNull; JNumber "1"; JArray [JString "b"; JString "c"]]
  = Some "a1b,c" ∧
  Array_join "" [JObject [("valueOf", JNull)]] = Some "[object Object]" ∧
  Array_join "" [JString "a"; JObject [("toString", JNull)]] = None.
Proof. split_and!; reflexivity. Qed.

Example entries_of_array :
  Object_entries (JArray [JArray [JString "x"]; JNull])
  = [("0", JArray [JString "x"]); ("1", JNull)].
Proof. reflexivity. Qed.

(** * Further properties of the script *)

(** ** Section navigator *)

Lemma show_all_blocks_lookup (s : string) (ids : list string) :
  ∀ (d : NavDom) (id : string),
    blocks (foldl (show_one s) d ids) !! block_id id
    = if decide (id ∈ ids)
      then show_block (bool_decide (id = s)) <$> blocks d !! block_id id
      else blocks d !! block_id id.
Proof.
  induction ids as [|a ids IH]; intros d id; cbn [foldl].
  - by rewrite decide_False by apply not_elem_of_nil.
  - rewrite IH.
    assert (blocks (show_one s d a) !! block_id id
            = if decide (a = id)
              then show_block (bool_decide (id = s)) <$> blocks d !! block_id id
              else blocks d !! block_id id) as Hstep.
    { rewrite show_one_eq. destruct (decide (a = id)) as [->|Hne].
      - destruct (blocks d !! block_id id) as [b|] eqn:Hb; cbn [blocks].
        + by rewrite lookup_insert_eq.
        + by rewrite Hb.
      - destruct (blocks d !! block_id a) as [b|]; cbn [blocks]; [|done].
        rewrite lookup_insert_ne; [done|]. by intros ?%block_id_inj. }
    rewrite Hstep.
    destruct (decide (a = id)) as [->|Hne].
    + rewrite (decide_True (P := id ∈ id :: ids)) by left.
      destruct (decide (id ∈ ids)); [|done].
      destruct (blocks d !! block_id id) as [b|]; cbn; [|done].
      by rewrite show_block_idem.
    + destruct (decide (id ∈ ids)) as [Hin|Hin].
      * by rewrite (decide_True (P := id ∈ a :: ids)) by (by right).
      * rewrite (decide_False (P := id ∈ a :: ids)); [done|].
        intros [?|?]%elem_of_cons; [by subst|done].
Qed.

Lemma show_all_visible (s : string) (d : NavDom) :
  visible_sections (foldl (show_one s) d SECTION_IDS)
  = if bool_decide (s ∈ SECTION_IDS ∧ is_Some (blocks d !! block_id s))
    then [s] else [].
Proof.
  unfold visible_sections.
  assert (∀ id, id ∈ SECTION_IDS →
            is_shown (foldl (show_one s) d SECTION_IDS) id = true
            ↔ id = s ∧ is_Some (blocks d !! block_id id)) as Hshown.
  { intros id Hid. unfold is_shown. rewrite show_all_blocks_lookup.
    rewrite decide_True by done.
    destruct (blocks d !! block_id id) as [b|]; cbn.
    - rewrite negb_involutive, bool_decide_eq_true. split; [eauto|tauto].
    - split; [done|]. by intros [_ [? ?]]. }
  case_bool_decide as Hs.
  - destruct Hs as [Hs Hb]. rewrite <- (only_section s Hs).
    apply filter_ext_elem. intros id Hid. rewrite (Hshown id Hid).
    split; [tauto|]. by intros ->.
  - apply elem_of_nil_inv. intros id [Hsh Hid]%list_elem_of_filter.
    apply (Hshown id Hid) in Hsh as [-> Hb]. by apply Hs.
Qed.

(** X1.  After [showSection(s, u)], on any page and for any [s], the
    sections shown are [s] alone when [s] is a section identifier whose
    container exists, and none otherwise: never more than one. *)
Theorem showSection_visible_sections (s : string) (u : bool) (p : Page) :
  visible_sections (navdom (showSection s u p))
  = if bool_decide (s ∈ SECTION_IDS ∧ is_Some (blocks (navdom p) !! block_id s))
    then [s] else [].
Proof. rewrite navdom_showSection. apply show_all_visible. Qed.

(** X2.  After [showSection(s, u)], for each section identifier whose
    container exists, the nav link the selector finds for it carries
    [active] exactly when it is the link of [s]. *)
Theorem showSection_active_link (s : string) (u : bool) (p : Page)
    (id : string) (links : list NavLink) (i : nat) (l : NavLink) :
  id ∈ SECTION_IDS →
  is_Some (blocks (navdom p) !! block_id id) →
  nav (navdom (showSection s u p)) = Some links →
  querySelector_link id links = Some (i, l) →
  "active" ∈ link_classList l ↔ id = s.
Proof.
  rewrite navdom_showSection. intros Hid Hb Hnav Hq.
  rewrite (show_all_link s (navdom p) id links i l Hid Hb Hnav Hq).
  unfold show_link, set_link_class. cbn [link_classList].
  rewrite classList_toggle_elem. apply bool_decide_eq_true.
Qed.

(** Two families of steps where a later step of the second family
    overwrites the step of the first at the same key and passes over the
    steps at other keys. *)
Section FoldOverwrite.
Context {A B : Type} (f g : A → B → A).
Hypothesis g_over_f : ∀ a x, g (f a x) x = g a x.
Hypothesis g_past_f : ∀ a x y, x ≠ y → g (f a x) y = f (g a y) x.

Lemma foldl_step_past (l : list B) (a : A) (x : B) :
  x ∉ l → g (foldl f a l) x = foldl f (g a x) l.
Proof.
  revert a. induction l as [|y l IH]; intros a Hx; cbn [foldl]; [done|].
  apply not_elem_of_cons in Hx as [Hxy Hx].
  rewrite IH by done. by rewrite g_past_f by done.
Qed.

Lemma foldl_overwrite (l : list B) (a : A) :
  NoDup l → foldl g (foldl f a l) l = foldl g a l.
Proof.
  revert a. induction l as [|x l IH]; intros a Hnd; cbn [foldl]; [done|].
  apply NoDup_cons in Hnd as [Hx Hnd].
  by rewrite foldl_step_past, g_over_f, IH.
Qed.
End FoldOverwrite.

Lemma classList_toggle_over (c : string) (v w : bool) (cl : gset string) :
  classList_toggle c w (classList_toggle c v cl) = classList_toggle c w cl.
Proof.
  unfold classList_toggle. destruct v, w; apply set_eq; intros x;
    repeat first [ rewrite elem_of_union | rewrite elem_of_difference
                 | rewrite elem_of_singleton ];
    destruct (decide (x = c)); tauto.
Qed.

Lemma update_first_over {A} (P : A → Prop) `{∀ x, Decision (P x)}
    (f g : A → A) (l : list A) :
  (∀ x, P x → P (f x)) → (∀ x, g (f x) = g x) →
  update_first P g (update_first P f l) = update_first P g l.
Proof.
  intros HP Hg. induction l as [|a l IH]; cbn [update_first]; [done|].
  destruct (decide (P a)) as [Ha|Ha]; cbn [update_first].
  - by rewrite (decide_True (P := P (f a))), Hg by auto.
  - by rewrite (decide_False (P := P a)), IH by done.
Qed.

Lemma show_one_over (s t : string) (d : NavDom) (id : string) :
  show_one t (show_one s d id) id = show_one t d id.
Proof.
  rewrite (show_one_eq s d id).
  destruct (blocks d !! block_id id) as [b|] eqn:Hb; [|done].
  rewrite !show_one_eq. cbn [blocks nav]. rewrite lookup_insert_eq, Hb.
  rewrite insert_insert_eq. f_equal.
  - f_equal. unfold show_block. cbn [block_classList block_hidden].
    by rewrite classList_toggle_over.
  - destruct (nav d) as [links|]; cbn; [|done]. f_equal.
    apply update_first_over; [done|].
    intros l. unfold show_link, set_link_class. cbn [link_section link_classList].
    by rewrite classList_toggle_over.
Qed.

Lemma show_one_past (s t : string) (d : NavDom) (a b : string) :
  a ≠ b → show_one t (show_one s d a) b = show_one s (show_one t d b) a.
Proof.
  intros Hab.
  assert (block_id a ≠ block_id b) as Hk by (by intros ?%block_id_inj).
  rewrite (show_one_eq s d a), (show_one_eq t d b).
  destruct (blocks d !! block_id a) as [ba|] eqn:Ha,
           (blocks d !! block_id b) as [bb|] eqn:Hb;
    rewrite !show_one_eq; cbn [blocks nav];
    rewrite ?lookup_insert_ne, ?Ha, ?Hb by done; try done.
  f_equal; [by apply insert_insert_ne|].
  destruct (nav d) as [links|]; cbn; [|done].
  f_equal. apply update_first_comm; [|done..].
  intros l ? ?. apply Hab. congruence.
Qed.

Lemma SECTION_IDS_NoDup : NoDup SECTION_IDS.
Proof. apply (bool_decide_unpack _). by vm_compute. Qed.

(** X3.  The last [showSection] wins: what the navigator shows after
    [showSection(s, u)] followed by [showSection(t, v)] is what
    [showSection(t, v)] alone shows, whatever [s] was. *)
Theorem showSection_last_wins (s t : string) (u v : bool) (p : Page) :
  navdom (showSection t v (showSection s u p)) = navdom (showSection t v p).
Proof.
  rewrite !navdom_showSection.
  apply (foldl_overwrite (show_one s) (show_one t)).
  - intros d id. apply show_one_over.
  - intros d a b Hab. by apply show_one_past.
  - apply SECTION_IDS_NoDup.
Qed.

Lemma showSection_scrollTop (s : string) (u : bool) (p : Page) :
  main_scrollTop (showSection s u p)
  = if truthy s then (λ _, 0) <$> main_scrollTop p else main_scrollTop p.
Proof.
  unfold showSection.
  generalize (foldl (show_one s) (navdom p) SECTION_IDS) as d. intros d.
  destruct p as [d0 m gs bs h cd co].
  cbn [history set_navdom main_scrollTop grids other_btns contentData
       console navdom].
  destruct u; [case_bool_decide|]; destruct m, (truthy s); done.
Qed.


(** X5.  When [showSection(id, true)] replaces the URL (non-empty [id],
    fragment other than [#id]) on a page whose path names the same host
    when it is resolved, and [id] holds nothing the URL parser
    percent-encodes, the new URL is the old path with the fragment [#id]
    and no query string: the query of the old URL is dropped; the other
    history entries are as they were. *)
Theorem showSection_replaces_url (id : string) (p : Page) :
  local_path (location_pathname p) = true →
  truthy id = true →
  fragment_plain id = true →
  location_hash p ≠ "#" +:+ id →
  history (showSection id true p)
  = mkHistory (history_back (history p))
              (mkURL (location_pathname p) "" ("#" +:+ id))
              (history_forward (history p)).
Proof.
  intros Hl Hid Hp Hne.
  unfold showSection, location_hash, location_pathname in *.
  generalize (foldl (show_one id) (navdom p) SECTION_IDS) as d. intros d.
  destruct p as [d0 m gs bs h cd co].
  cbn [history set_navdom main_scrollTop grids other_btns contentData console
       navdom] in *.
  rewrite Hid, bool_decide_eq_true_2 by done.
  destruct m; cbn; unfold replaceState; by rewrite parse_url_local.
Qed.

Lemma showSection_replaces_url_witness :
  history (showSection "storage" true example_page_query)
  = mkHistory [mkURL "/" "" ""] (mkURL "/aws/index.html" "" "#storage") [].
Proof.
  assert ("#compute" ≠ "#" +:+ "storage") as Hne by done.
  exact (showSection_replaces_url "storage" example_page_query
           eq_refl eq_refl eq_refl Hne).
Defined.

Lemma recognized_truthy (s : string) : s ∈ SECTION_IDS → truthy s = true.
Proof.
  intros Hs. destruct s; [|done]. exfalso. revert Hs.
  apply (bool_decide_unpack _). by vm_compute.
Qed.

Lemma showSection_false_fixed (s : string) (q : Page) :
  foldl (show_one s) (navdom q) SECTION_IDS = navdom q →
  (truthy s = true → main_scrollTop q = None ∨ main_scrollTop q = Some 0) →
  showSection s false q = q.
Proof.
  intros Hnav Hscroll. unfold showSection. rewrite Hnav.
  destruct q as [d m gs bs h cd co].
  cbn [set_navdom navdom main_scrollTop grids other_btns history contentData
       console] in *.
  destruct m as [n|]; [|done]. destruct (truthy s); [|done].
  destruct (Hscroll eq_refl) as [?|[= ->]]; done.
Qed.

(** X6.  The [hashchange] and [load] listeners never change the history
    or the URL, and do the same thing.  On a page without [#nav] they do
    nothing at all, even for a recognized fragment; with [#nav] and a
    recognized fragment they show the section of the fragment (when its
    container exists) and no other. *)
Theorem hashchange_and_load (p : Page) :
  history (on_hashchange p) = history p ∧
  on_load p = on_hashchange p ∧
  (nav (navdom p) = None → on_hashchange p = p) ∧
  (is_Some (nav (navdom p)) → slice1 (location_hash p) ∈ SECTION_IDS →
   visible_sections (navdom (on_hashchange p))
   = if bool_decide (is_Some (blocks (navdom p)
                                !! block_id (slice1 (location_hash p))))
     then [slice1 (location_hash p)] else []).
Proof.
  unfold on_hashchange, on_load, load_listener, hashchange_listener, includes.
  split_and!.
  - destruct (nav (navdom p)); [|done]. case_bool_decide; [|done].
    apply showSection_false_history.
  - done.
  - by intros ->.
  - intros [links ->] Hs. rewrite bool_decide_eq_true_2 by done.
    rewrite navdom_showSection, show_all_visible.
    by rewrite (bool_decide_ext _ (is_Some (blocks (navdom p)
                  !! block_id (slice1 (location_hash p))))) by tauto.
Qed.


Lemma showSection_active_link_witness :
  "active" ∈ link_classList (mkNavLink "storage" {[ "nav-link"; "active" ]})
  ↔ "storage" = "storage".
Proof.
  assert ("storage" ∈ SECTION_IDS) as Hs by in_list.
  refine (showSection_active_link "storage" true (example_page "" JNull)
            "storage"
            ((λ id, mkNavLink id (if bool_decide (id = "storage")
                                  then {[ "nav-link"; "active" ]}
                                  else {[ "nav-link" ]})) <$> SECTION_IDS)
            2 (mkNavLink "storage" {[ "nav-link"; "active" ]})
            Hs (example_blocks_all "storage" Hs) _ _); by vm_compute.
Defined.




(** ** Image modal *)

(** X9.  [openModal] raises exactly when the modal and its image exist
    and the caption does not; in every other case it returns. *)
Theorem openModal_throws_iff (src title : string) (m : ModalDom) :
  (∃ e m', openModal src title m = Throw e m')
  ↔ is_Some (modal m) ∧ is_Some (modalImg m) ∧ modalCaption m = None.
Proof.
  unfold openModal.
  destruct (modal m) as [md|], (modalImg m) as [img|],
           (modalCaption m) as [cap|]; split;
    try (by intros (? & ? & [=])); try (by intros ([? [=]] & _));
    try (by intros (_ & [? [=]] & _)); try (by intros (_ & _ & [=]));
    intros _; eauto.
Qed.

(** X10.  Opening again overrides: when a first [openModal] returned,
    a second one gives the same result as on the page before the first
    (image, caption, visibility, scroll lock and focus). *)
Theorem openModal_reopen (src1 title1 src2 title2 : string) (m m1 : ModalDom) :
  openModal src1 title1 m = Normal m1 →
  openModal src2 title2 m1 = openModal src2 title2 m.
Proof.
  unfold openModal.
  destruct (modal m) as [[hid cl foc]|] eqn:Hm; [|by intros [= <-]; rewrite Hm].
  destruct (modalImg m) as [img|] eqn:Hi; [|by intros [= <-]; rewrite Hm, Hi].
  destruct (modalCaption m) as [cap|] eqn:Hc; [|done].
  intros [= <-]. cbn. by destruct cl, foc.
Qed.

Lemma openModal_reopen_witness :
  openModal "b.png" "B"
    (mkModalDom (Some (mkModalEl false true true)) (Some (mkImgEl "a.png" "A"))
                (Some "A") "hidden" true)
  = openModal "b.png" "B"
      (mkModalDom (Some (mkModalEl true true true)) (Some (mkImgEl "" ""))
                  (Some "") "" false).
Proof.
  exact (openModal_reopen "a.png" "A" "b.png" "B"
           (mkModalDom (Some (mkModalEl true true true)) (Some (mkImgEl "" ""))
                       (Some "") "" false) _ eq_refl).
Defined.

(** X11.  Closing after a completed open hides the modal and clears the
    body's inline overflow (whatever it was before the open); the image
    source, the alternative text and the caption stay as the open set
    them (with [Image] and the empty caption standing in for an empty
    title).  The focus is on the close control when there is one and it
    takes the focus; otherwise it is where it was before the open. *)
Theorem closeModal_after_open (src title : string) (m m1 : ModalDom)
    (md : ModalEl) (img : ImgEl) (caption : string) :
  modal m = Some md → modalImg m = Some img → modalCaption m = Some caption →
  openModal src title m = Normal m1 →
  closeModal m1
  = mkModalDom (Some (mkModalEl true (modal_has_close md)
                                (modal_close_focusable md)))
               (Some (mkImgEl src (or_else title "Image")))
               (Some (or_else title ""))
               ""
               (modal_has_close md && modal_close_focusable md
                || close_focused m).
Proof.
  intros Hm Hi Hc. unfold openModal. rewrite Hm, Hi, Hc. intros [= <-].
  unfold closeModal. cbn.
  by destruct (modal_has_close md), (modal_close_focusable md).
Qed.

Lemma closeModal_after_open_witness :
  closeModal
    (mkModalDom (Some (mkModalEl false true false))
                (Some (mkImgEl "a.png" "Image")) (Some "") "hidden" false)
  = mkModalDom (Some (mkModalEl true true false))
               (Some (mkImgEl "a.png" "Image")) (Some "") "" false.
Proof.
  exact (closeModal_after_open "a.png" "" span_close_modal
           _ (mkModalEl true true false) (mkImgEl "" "") "old"
           eq_refl eq_refl eq_refl eq_refl).
Defined.

(** With a close control that takes the focus, the open moves the focus
    to it; with one that does not, the focus stays. *)
Example openModal_focus :
  (∃ m', openModal "a.png" "A"
           (mkModalDom (Some (mkModalEl true true true)) (Some (mkImgEl "" ""))
                       (Some "") "" false) = Normal m'
         ∧ close_focused m' = true) ∧
  (∃ m', openModal "a.png" "A" span_close_modal = Normal m'
         ∧ close_focused m' = false).
Proof. split; by eexists. Qed.

(** X12.  [closeModal] is idempotent, never touches the image, the
    caption or the focus, and does nothing on a page without the
    modal. *)
Theorem closeModal_idempotent (m : ModalDom) :
  closeModal (closeModal m) = closeModal m ∧
  modalImg (closeModal m) = modalImg m ∧
  modalCaption (closeModal m) = modalCaption m ∧
  close_focused (closeModal m) = close_focused m ∧
  (modal m = None → closeModal m = m).
Proof.
  unfold closeModal. destruct m as [[md|] img cap ov f]; cbn; split_and!; done.
Qed.

(** ** Card toggle *)

Lemma remove_add_remove (c : string) (cl : gset string) :
  (cl ∖ {[ c ]} ∪ {[ c ]}) ∖ {[ c ]} = cl ∖ {[ c ]}.
Proof.
  apply set_eq. intros x.
  repeat first [ rewrite elem_of_union | rewrite elem_of_difference
               | rewrite elem_of_singleton ].
  tauto.
Qed.

Lemma add_remove_add (c : string) (cl : gset string) :
  (cl ∪ {[ c ]}) ∖ {[ c ]} ∪ {[ c ]} = cl ∪ {[ c ]}.
Proof.
  apply set_eq. intros x.
  repeat first [ rewrite elem_of_union | rewrite elem_of_difference
               | rewrite elem_of_singleton ].
  destruct (decide (x = c)); tauto.
Qed.

(** X13.  After its first toggle a card alternates between two states:
    three toggles of any card leave it as one toggle does. *)
Theorem toggleResource_thrice (c : CardDom) :
  toggleResource (toggleResource (toggleResource c)) = toggleResource c.
Proof.
  destruct (card_text c) as [t|] eqn:Ht.
  2:{ by rewrite !(toggleResource_no_full_text c Ht). }
  destruct (decide (full_display t = "block")) as [Hfull|Hfull].
  - rewrite (toggleResource_collapse c t Ht Hfull).
    rewrite toggleResource_on_none, toggleResource_on_block.
    unfold setAttribute. cbn [full_display short_display btn_attrs btn_textContent].
    rewrite !insert_insert_eq.
    rewrite (with_card_classes_ext _ (λ cl, cl ∖ {[ "is-expanded" ]}))
      by (intros cl _; apply remove_add_remove).
    by destruct (short_display t).
  - rewrite (toggleResource_expand c t Ht Hfull).
    rewrite toggleResource_on_block, toggleResource_on_none.
    unfold setAttribute. cbn [full_display short_display btn_attrs btn_textContent].
    rewrite !insert_insert_eq.
    rewrite (with_card_classes_ext _ (λ cl, cl ∪ {[ "is-expanded" ]}))
      by (intros cl _; apply add_remove_add).
    by destruct (short_display t).
Qed.

(** X14.  A toggle leaves a card that has its full text in one of two
    states, whatever state it was in: the collapsed one when the inline
    display of the full text was [block], the expanded one otherwise.
    So display, button text, [aria-expanded] and the class [is-expanded]
    agree after any toggle. *)
Theorem toggleResource_lands (c : CardDom) (t : CardText) :
  card_text c = Some t →
  (full_display t = "block" → collapsed (toggleResource c)) ∧
  (full_display t ≠ "block" → expanded (toggleResource c)).
Proof.
  intros Ht. split; intros Hfull.
  - rewrite (toggleResource_collapse c t Ht Hfull). unfold collapsed.
    rewrite with_card_classes_text, with_card_classes_btn,
      with_card_classes_classList.
    split_and!; [|done|apply lookup_insert_eq|].
    + eexists. split; [done|]. destruct (short_display t); auto.
    + destruct (card_classList c) as [cl0|]; [|done].
      intros cl [= <-]. rewrite elem_of_difference, elem_of_singleton. tauto.
  - rewrite (toggleResource_expand c t Ht Hfull). unfold expanded.
    rewrite with_card_classes_text, with_card_classes_btn,
      with_card_classes_classList.
    split_and!; [|done|apply lookup_insert_eq|].
    + eexists. split; [done|]. destruct (short_display t); auto.
    + destruct (card_classList c) as [cl0|]; [|done].
      intros cl [= <-]. rewrite elem_of_union, elem_of_singleton. tauto.
Qed.

Lemma toggleResource_lands_witness : expanded (toggleResource plain_card).
Proof.
  assert ("none" ≠ "block") as Hne by done.
  exact (proj2 (toggleResource_lands plain_card
                  (mkCardText "none" (Some "")) eq_refl) Hne).
Defined.

Lemma toggleResource_eq (c : CardDom) (t : CardText) :
  card_text c = Some t →
  ∃ f t' aria text,
    toggleResource c
    = with_card_classes f c t'
        (setAttribute "aria-expanded" aria
           (mkExpandBtn text (btn_attrs (card_btn c))))
    ∧ (∀ cl x, x ≠ "is-expanded" → x ∈ f cl ↔ x ∈ cl)
    ∧ (is_Some (short_display t') ↔ is_Some (short_display t)).
Proof.
  intros Ht. destruct (decide (full_display t = "block")) as [Hfull|Hfull].
  - rewrite (toggleResource_collapse c t Ht Hfull).
    eexists _, _, _, _. split; [done|]. split.
    + intros cl x Hx. rewrite elem_of_difference, elem_of_singleton. tauto.
    + cbn. by rewrite fmap_is_Some.
  - rewrite (toggleResource_expand c t Ht Hfull).
    eexists _, _, _, _. split; [done|]. split.
    + intros cl x Hx. rewrite elem_of_union, elem_of_singleton. tauto.
    + cbn. by rewrite fmap_is_Some.
Qed.

(** X15.  What a toggle leaves alone: it adds and removes no element
    (card, full text, short text) and the card stays the element it was,
    the button itself or one around it; it keeps every class of the card
    other than [is-expanded], and every attribute of the button other
    than [aria-expanded] and [class].  The class list of the button is
    kept but for [is-expanded], and kept entirely when the button is not
    itself the card.  A button with no element before it is left
    entirely as it is. *)
Theorem toggleResource_leaves_alone (c : CardDom) :
  (is_Some (card_classList (toggleResource c)) ↔ is_Some (card_classList c)) ∧
  (card (toggleResource c) = CardIsButton ↔ card c = CardIsButton) ∧
  (card (toggleResource c) = CardNone ↔ card c = CardNone) ∧
  (is_Some (card_text (toggleResource c)) ↔ is_Some (card_text c)) ∧
  (is_Some (card_text (toggleResource c) ≫= short_display)
   ↔ is_Some (card_text c ≫= short_display)) ∧
  (∀ cl cl' x, card_classList c = Some cl →
     card_classList (toggleResource c) = Some cl' →
     x ≠ "is-expanded" → x ∈ cl' ↔ x ∈ cl) ∧
  (∀ x, x ≠ "is-expanded" →
     x ∈ btn_classList (toggleResource c) ↔ x ∈ btn_classList c) ∧
  (card c ≠ CardIsButton →
   btn_classList (toggleResource c) = btn_classList c) ∧
  (∀ k, k ≠ "aria-expanded" →
     btn_attrs (card_btn (toggleResource c)) !! k = btn_attrs (card_btn c) !! k) ∧
  (card_text c = None → toggleResource c = c).
Proof.
  destruct (card_text c) as [t|] eqn:Ht.
  2:{ rewrite (toggleResource_no_full_text c Ht), Ht.
      split_and!; try done. by intros cl cl' x -> [= ->]. }
  destruct (toggleResource_eq c t Ht) as (f & t' & aria & text & -> & Hf & Hs).
  rewrite with_card_classes_classList, with_card_classes_text,
    with_card_classes_btn.
  split_and!.
  - by rewrite fmap_is_Some.
  - unfold with_card_classes. by destruct (card c).
  - unfold with_card_classes. by destruct (card c).
  - by split; eauto.
  - done.
  - intros cl cl' x -> [= <-]. apply Hf.
  - intros x Hx. unfold with_card_classes.
    destruct (card c); cbn [btn_classList]; [done|by apply Hf|done].
  - intros Hc. unfold with_card_classes. by destruct (card c).
  - intros k Hk. cbn. by rewrite lookup_insert_ne.
  - done.
Qed.

(** A button that carries [resource-card] is its own card: the toggle
    adds [is-expanded] to the button's class list. *)
Example toggleResource_button_card :
  ("is-expanded" ∈ btn_classList (toggleResource button_card)) ∧
  ("is-expanded" ∉ btn_classList button_card) ∧
  ("is-expanded" ∉ btn_classList (toggleResource block_card)).
Proof. split_and!; apply (bool_decide_unpack _); by vm_compute. Qed.

(** ** Theme, zen and challenge toggles *)

Lemma classList_flip_twice (c : string) (cl : gset string) :
  classList_flip c (classList_flip c cl) = cl.
Proof.
  unfold classList_flip. destruct (decide (c ∈ cl)) as [Hc|Hc].
  - rewrite decide_False
      by (rewrite elem_of_difference, elem_of_singleton; tauto).
    apply set_eq. intros x.
    rewrite elem_of_union, elem_of_difference, elem_of_singleton.
    destruct (decide (x = c)) as [->|]; tauto.
  - rewrite decide_True by (rewrite elem_of_union, elem_of_singleton; tauto).
    by apply add_then_remove_class.
Qed.

Lemma classList_flip_other (c x : string) (cl : gset string) :
  x ≠ c → x ∈ classList_flip c cl ↔ x ∈ cl.
Proof.
  intros Hx. unfold classList_flip. case_decide;
    rewrite ?elem_of_union, ?elem_of_difference, elem_of_singleton; tauto.
Qed.

Lemma classList_flip_self (c : string) (cl : gset string) :
  c ∈ classList_flip c cl ↔ c ∉ cl.
Proof.
  unfold classList_flip. case_decide;
    rewrite ?elem_of_union, ?elem_of_difference, elem_of_singleton; tauto.
Qed.

Lemma classList_flip_comm (c1 c2 : string) (cl : gset string) :
  c1 ≠ c2 →
  classList_flip c1 (classList_flip c2 cl)
  = classList_flip c2 (classList_flip c1 cl).
Proof.
  intros Hne. apply set_eq. intros x.
  destruct (decide (x = c1)) as [->|H1]; [|destruct (decide (x = c2)) as [->|H2]].
  - by rewrite classList_flip_self, !(classList_flip_other c2 c1),
      classList_flip_self.
  - by rewrite (classList_flip_other c1 c2), !classList_flip_self,
      (classList_flip_other c1 c2) by done.
  - by rewrite !classList_flip_other by done.
Qed.

(** X16.  Two clicks on the theme button, or on the zen button, give
    back the body's class list exactly, whatever it held. *)
Theorem theme_zen_click_twice (t : Toolbar) :
  on_theme_click (on_theme_click t) = t ∧ on_zen_click (on_zen_click t) = t.
Proof.
  unfold on_theme_click, on_zen_click.
  destruct t as [[] [] ch cl];
    cbn [theme_btn zen_btn challenge_toggle body_classList];
    by rewrite ?classList_flip_twice.
Qed.

(** X17.  A click on the theme button flips [dark-mode] on the body and
    touches no other class; likewise the zen button and [zen-mode]; the
    two commute; and a missing button means no change. *)
Theorem theme_zen_independent (t : Toolbar) :
  (theme_btn t = true →
   ("dark-mode" ∈ body_classList (on_theme_click t)
    ↔ "dark-mode" ∉ body_classList t)) ∧
  (zen_btn t = true →
   ("zen-mode" ∈ body_classList (on_zen_click t)
    ↔ "zen-mode" ∉ body_classList t)) ∧
  (∀ x, x ≠ "dark-mode" →
        x ∈ body_classList (on_theme_click t) ↔ x ∈ body_classList t) ∧
  (∀ x, x ≠ "zen-mode" →
        x ∈ body_classList (on_zen_click t) ↔ x ∈ body_classList t) ∧
  on_theme_click (on_zen_click t) = on_zen_click (on_theme_click t) ∧
  (theme_btn t = false → on_theme_click t = t) ∧
  (zen_btn t = false → on_zen_click t = t).
Proof.
  unfold on_theme_click, on_zen_click.
  destruct t as [th zn ch cl];
    cbn [theme_btn zen_btn challenge_toggle body_classList].
  split_and!.
  - intros ->. apply classList_flip_self.
  - intros ->. apply classList_flip_self.
  - intros x Hx. destruct th; [|done]. by apply classList_flip_other.
  - intros x Hx. destruct zn; [|done]. by apply classList_flip_other.
  - destruct th, zn; cbn [theme_btn zen_btn challenge_toggle body_classList];
      try done.
    f_equal. by apply classList_flip_comm.
  - by intros ->.
  - by intros ->.
Qed.

(** X18.  After a [change] of the challenge toggle the body carries
    [challenge-mode-active] exactly when the box is checked; no other
    class is touched, a repeated event changes nothing more, and a
    missing toggle means no change. *)
Theorem challenge_change_syncs (checked : bool) (t : Toolbar) :
  (is_Some (challenge_toggle t) →
   ("challenge-mode-active" ∈ body_classList (on_challenge_change checked t)
    ↔ checked = true) ∧
   challenge_toggle (on_challenge_change checked t) = Some checked) ∧
  (∀ x, x ≠ "challenge-mode-active" →
        x ∈ body_classList (on_challenge_change checked t)
        ↔ x ∈ body_classList t) ∧
  on_challenge_change checked (on_challenge_change checked t)
  = on_challenge_change checked t ∧
  (challenge_toggle t = None → on_challenge_change checked t = t).
Proof.
  unfold on_challenge_change.
  destruct t as [th zn [ch|] cl];
    cbn [theme_btn zen_btn challenge_toggle body_classList].
  - split_and!.
    + intros _. split; [apply classList_toggle_elem | done].
    + intros x Hx. by apply classList_toggle_other.
    + by rewrite classList_toggle_idem.
    + done.
  - split_and!; try done; by intros [? [=]].
Qed.

(** ** Content loader *)

Lemma collapse_btn_idem (b : ExpandBtn) :
  collapse_btn (collapse_btn b) = collapse_btn b.
Proof.
  unfold collapse_btn, setAttribute. cbn [btn_textContent btn_attrs].
  by rewrite insert_insert_eq.
Qed.

Lemma collapse_btn_collapsed (b : ExpandBtn) :
  btn_attrs (collapse_btn b) !! "aria-expanded" = Some "false".
Proof. apply lookup_insert_eq. Qed.

Lemma collapse_grid_idem (g : Grid) :
  collapse_grid (collapse_grid g) = collapse_grid g.
Proof.
  unfold collapse_grid. cbn [grid_section grid_innerHTML grid_btns]. f_equal.
  rewrite <- list_fmap_compose. apply list_fmap_ext.
  intros i b _. apply collapse_btn_idem.
Qed.

Lemma grid_position_ext (k : string) (l1 l2 : list Grid) :
  grid_section <$> l1 = grid_section <$> l2 →
  fst <$> first_grid k l1 = fst <$> first_grid k l2.
Proof.
  unfold first_grid. revert l2.
  induction l1 as [|a l1 IH]; intros [|b l2]; try done.
  intros [= Hab Hl]. cbn [list_find]. rewrite Hab.
  destruct (decide (grid_section b = k)); [done|].
  rewrite <- !option_fmap_compose.
  change (fst ∘ prod_map S id) with (S ∘ (fst : nat * Grid → nat)).
  by rewrite !option_fmap_compose, (IH l2 Hl).
Qed.

(** The decimal form of an index goes into a selector as it is. *)
Lemma css_plain_digit (d : N) (s : string) :
  css_plain (String (pretty_N_char d) s) = css_plain s.
Proof. unfold pretty_N_char. by repeat case_match. Qed.

Lemma css_plain_pretty_N_go (x : N) (s : string) :
  css_plain s = true → css_plain (pretty_N_go x s) = true.
Proof.
  revert s. induction (N.lt_wf_0 x) as [x _ IH]; intros s Hs.
  assert (x = 0 ∨ 0 < x)%N as [->|Hx] by lia.
  - by rewrite pretty_N_go_0.
  - rewrite pretty_N_go_step by done. apply IH.
    + by apply N.div_lt.
    + by rewrite css_plain_digit.
Qed.

Lemma css_plain_pretty_nat (i : nat) : css_plain (pretty i) = true.
Proof.
  unfold pretty, pretty_nat, pretty, pretty_N.
  case_decide; [done|]. by apply css_plain_pretty_N_go.
Qed.

Lemma plain_keys_indices (items : list JValue) :
  plain_keys (Object_entries (JArray items)).
Proof.
  unfold plain_keys. apply Forall_forall. intros k Hk.
  apply list_elem_of_fmap in Hk as ([k' v] & -> & Hin).
  apply list_elem_of_lookup in Hin as [j Hj]. cbn [Object_entries] in Hj.
  rewrite list_lookup_imap in Hj. destruct (items !! j); [|done].
  injection Hj as <- _. apply css_plain_pretty_nat.
Qed.

Lemma indices_NoDup (items : list JValue) :
  NoDup (Object_entries (JArray items)).*1.
Proof.
  cbn [Object_entries]. apply NoDup_alt. intros a b k.
  rewrite !list_lookup_fmap, !list_lookup_imap.
  destruct (items !! a), (items !! b); cbn; try done.
  intros [= <-] [= Hab]. by apply (inj pretty) in Hab.
Qed.

Lemma reset_expand_btns_eq (p : Page) :
  reset_expand_btns p
  = set_other_btns (collapse_btn <$> other_btns p)
      (set_grids (collapse_grid <$> grids p) p).
Proof. reflexivity. Qed.

Lemma reset_expand_btns_collapsed (p : Page) :
  Forall (λ b, btn_attrs b !! "aria-expanded" = Some "false")
         (expand_btns (reset_expand_btns p)).
Proof.
  unfold expand_btns. rewrite reset_expand_btns_eq.
  cbn [grids other_btns set_other_btns set_grids].
  apply Forall_app. split; apply Forall_forall; intros b Hb.
  - apply list_elem_of_fmap in Hb as (b0 & -> & _). apply collapse_btn_collapsed.
  - apply list_elem_of_bind in Hb as (g & Hb & Hg).
    apply list_elem_of_fmap in Hg as (g0 & -> & _).
    cbn [collapse_grid grid_btns] in Hb.
    apply list_elem_of_fmap in Hb as (b0 & -> & _). apply collapse_btn_collapsed.
Qed.

Section ContentLoaderFurther.
Context (querySelector : string → Page → Outcome (option Element)).
Context (parse_markup : string → MarkupContent).

Abbreviation populate_entries := (populate_entries querySelector parse_markup).
Abbreviation populateGrids := (populateGrids querySelector parse_markup).
Abbreviation loadContent := (loadContent querySelector parse_markup).
Abbreviation fill_one := (fill_one parse_markup).
Abbreviation populated := (populated parse_markup).
Abbreviation joinable := (joinable parse_markup).
Abbreviation plain_content := (plain_content parse_markup).

(** What [populateGrids] keeps on plain keys, however it ends. *)
Lemma populateGrids_keeps (p : Page) :
  selector_engine_ok querySelector →
  plain_keys (Object_entries (contentData p)) →
  contentData (completion_state (populateGrids p)) = contentData p ∧
  console (completion_state (populateGrids p)) = console p ∧
  history (completion_state (populateGrids p)) = history p.
Proof.
  intros Hok Hk.
  destruct (js_truthy (contentData p) && typeof_object (contentData p))
    eqn:Hguard.
  2:{ assert (populateGrids p = Normal p) as ->; [|done].
      unfold populateGrids. apply andb_false_iff in Hguard as [-> | ->];
        [done | by rewrite orb_true_r]. }
  apply andb_true_iff in Hguard as [Ht Ho].
  rewrite (populateGrids_guarded querySelector parse_markup p Ht Ho).
  destruct (populate_entries_grids_only querySelector parse_markup Hok _ p Hk) as [gs Hgs].
  destruct (populate_entries _ p) as [q|e q]; cbn in Hgs; subst q;
    cbn [completion_state]; [|done].
  destruct (showSection_frame
              (if bool_decide (slice1 (location_hash (set_grids gs p))
                               ∈ SECTION_IDS)
               then slice1 (location_hash (set_grids gs p))
               else DEFAULT_SECTION) false
              (reset_expand_btns (set_grids gs p))) as (_ & _ & -> & ->).
  by rewrite showSection_false_history.
Qed.

(** X19.  Whenever [populateGrids] passes its guard and returns, every
    expand button of the page afterwards, in a grid it filled, in a grid
    it skipped or outside the grids, has [aria-expanded="false"],
    whatever the content made of the page.  It returns when the keys of
    the content are plain and every fragment list joins without
    raising. *)
Theorem populateGrids_collapses_buttons (p : Page) :
  js_truthy (contentData p) = true → typeof_object (contentData p) = true →
  (∀ p', populateGrids p = Normal p' →
     Forall (λ b, btn_attrs b !! "aria-expanded" = Some "false")
            (expand_btns p')) ∧
  (selector_engine_ok querySelector →
   plain_keys (Object_entries (contentData p)) →
   (∀ k xs, (k, JArray xs) ∈ Object_entries (contentData p) →
            is_Some (Array_join "" xs)) →
   ∃ p', populateGrids p = Normal p').
Proof.
  intros Ht Ho. split.
  - intros p'. rewrite (populateGrids_guarded querySelector parse_markup p Ht Ho).
    destruct (populate_entries _ p) as [q|e q]; [|done]. intros [= <-].
    unfold expand_btns.
    destruct (showSection_frame
                (if bool_decide (slice1 (location_hash q) ∈ SECTION_IDS)
                 then slice1 (location_hash q) else DEFAULT_SECTION) false
                (reset_expand_btns q)) as (-> & -> & _).
    apply reset_expand_btns_collapsed.
  - intros Hok Hk Hj. by apply populateGrids_returns.
Qed.

(** X20.  On content whose keys are plain, [populateGrids], whether it
    returns or raises, leaves [contentData], the console, the history
    and the URL as they are.  When moreover the fragment lists join to
    markup that holds no grid and the grids of the page do not nest, it
    returns and the grids stay in place: none is added, removed,
    reordered or given another [data-section]. *)
Theorem populateGrids_leaves_alone (p : Page) :
  selector_engine_ok querySelector →
  plain_keys (Object_entries (contentData p)) →
  contentData (completion_state (populateGrids p)) = contentData p ∧
  console (completion_state (populateGrids p)) = console p ∧
  history (completion_state (populateGrids p)) = history p ∧
  (joinable (Object_entries (contentData p)) → flat (grids p) →
   ∃ p', populateGrids p = Normal p' ∧
         grid_section <$> grids p' = grid_section <$> grids p).
Proof.
  intros Hok Hk.
  destruct (populateGrids_keeps p Hok Hk) as (Hc & Hco & Hh).
  split_and!; [done..|]. intros Hj Hf.
  destruct (js_truthy (contentData p) && typeof_object (contentData p))
    eqn:Hguard.
  2:{ exists p. split; [|done].
      unfold populateGrids. apply andb_false_iff in Hguard as [-> | ->];
        [done | by rewrite orb_true_r]. }
  apply andb_true_iff in Hguard as [Ht Ho]. eexists.
  split; [by apply populateGrids_plain|].
  rewrite (proj1 (showSection_frame _ _ _)).
  cbn [grids reset_expand_btns set_other_btns set_grids].
  rewrite <- list_fmap_compose. apply fill_all_sections.
Qed.

(** X21.  A response that is [ok] with a JSON body whose keys are plain:
    the parsed value becomes [contentData] and the history stays as it
    is; the console stays as it is when every fragment list joins
    without raising, and gains at most the one entry of the [catch]
    otherwise.  When the value is not an object ([null], a number, a
    string, a boolean) nothing else happens: no grid is filled and no
    section is shown. *)
Theorem loadContent_success (statusText : string) (v : JValue) (p : Page) :
  selector_engine_ok querySelector →
  plain_keys (Object_entries v) →
  contentData (loadContent (FetchResponse true statusText (Some v)) p) = v ∧
  history (loadContent (FetchResponse true statusText (Some v)) p) = history p ∧
  (console (loadContent (FetchResponse true statusText (Some v)) p) = console p
   ∨ ∃ e, console (loadContent (FetchResponse true statusText (Some v)) p)
          = (console p ++ [(load_failed, e)])%list) ∧
  ((∀ k xs, (k, JArray xs) ∈ Object_entries v → is_Some (Array_join "" xs)) →
   console (loadContent (FetchResponse true statusText (Some v)) p) = console p) ∧
  (v = JNull ∨ typeof_object v = false →
   loadContent (FetchResponse true statusText (Some v)) p = set_contentData v p).
Proof.
  intros Hok Hk. unfold loadContent. cbn [negb].
  destruct (populateGrids_keeps (set_contentData v p) Hok Hk) as (Hc & Hco & Hh).
  pose proof (populateGrids_returns querySelector parse_markup Hok (set_contentData v p) Hk) as Hret.
  pose proof (populateGrids_unguarded querySelector parse_markup
                (set_contentData v p)) as Hun.
  destruct (populateGrids (set_contentData v p)) as [p1|e p1];
    cbn [completion_state] in Hc, Hco, Hh.
  - split_and!; try done; [by left|]. intros Hv. by injection (Hun Hv) as ->.
  - split_and!; try done.
    + right. exists e. cbn. by rewrite Hco.
    + intros Hj. by destruct (Hret Hj) as [? [=]].
    + intros Hv. by specialize (Hun Hv).
Qed.

Lemma fill_again (entries : list (string * JValue)) (gs : list Grid) :
  NoDup entries.*1 →
  collapse_grid
    <$> foldl fill_one (collapse_grid <$> foldl fill_one gs entries) entries
  = collapse_grid <$> foldl fill_one gs entries.
Proof.
  intros Hnd. apply list_eq. intros i.
  rewrite !list_lookup_fmap.
  destruct (gs !! i) as [g|] eqn:Hg.
  - rewrite (fill_all_lookup _ entries gs i g Hnd Hg).
    cbn [fmap option_fmap option_map].
    assert ((collapse_grid <$> foldl fill_one gs entries) !! i
            = Some (collapse_grid (populated entries gs i g))) as Hh.
    { by rewrite list_lookup_fmap, (fill_all_lookup _ entries gs i g Hnd Hg). }
    rewrite (fill_all_lookup _ entries _ i _ Hnd Hh).
    cbn [fmap option_fmap option_map]. f_equal.
    assert (grid_section (populated entries gs i g) = grid_section g) as Hsec.
    { unfold populated. case_decide; [|done].
      by destruct (array_entry entries (grid_section g)). }
    unfold populated at 1.
    cbn [collapse_grid grid_section]. rewrite Hsec.
    rewrite (grid_position_ext (grid_section g)
               (collapse_grid <$> foldl fill_one gs entries) gs).
    2:{ rewrite <- list_fmap_compose. apply fill_all_sections. }
    unfold populated.
    destruct (decide (fst <$> first_grid (grid_section g) gs = Some i));
      [|apply collapse_grid_idem].
    destruct (array_entry entries (grid_section g)) as [xs|];
      [|apply collapse_grid_idem].
    done.
  - assert (length gs ≤ i)%nat as Hi by (by apply lookup_ge_None).
    rewrite !(proj2 (lookup_ge_None _ _)); [done|..];
      rewrite ?length_fill_all, ?length_fmap, ?length_fill_all; done.
Qed.

(** X22.  On plain content with distinct keys, [populateGrids] is
    idempotent: it returns, and running it a second time on the page it
    produced (same [contentData], same URL) returns that page
    unchanged. *)
Theorem populateGrids_idempotent (p : Page) :
  selector_engine_ok querySelector →
  NoDup (Object_entries (contentData p)).*1 →
  plain_content p →
  ∃ p', populateGrids p = Normal p' ∧ populateGrids p' = Normal p'.
Proof.
  intros Hok Hnd (Hk & Hj & Hf).
  destruct (js_truthy (contentData p) && typeof_object (contentData p))
    eqn:Hguard.
  2:{ assert (populateGrids p = Normal p) as Hp; [|by exists p].
      unfold populateGrids. apply andb_false_iff in Hguard as [-> | ->];
        [done | by rewrite orb_true_r]. }
  apply andb_true_iff in Hguard as [Ht Ho].
  set (t := if bool_decide (slice1 (location_hash p) ∈ SECTION_IDS)
            then slice1 (location_hash p) else DEFAULT_SECTION).
  set (entries := Object_entries (contentData p)) in *.
  set (q := showSection t false
              (reset_expand_btns
                 (set_grids (foldl fill_one (grids p) entries) p))).
  assert (populateGrids p = Normal q) as Hq
    by (by apply populateGrids_plain).
  exists q. split; [done|].
  destruct (showSection_frame t false
              (reset_expand_btns
                 (set_grids (foldl fill_one (grids p) entries) p)))
    as (Hg & Hb & Hcd & _).
  fold q in Hg, Hb, Hcd.
  rewrite reset_expand_btns_eq in Hg, Hb, Hcd.
  cbn [grids other_btns contentData set_other_btns set_grids] in Hg, Hb, Hcd.
  assert (history q = history p) as Hh
    by (unfold q; by rewrite showSection_false_history).
  assert (flat (grids q)) as Hfq.
  { rewrite Hg. apply Forall_fmap, Forall_forall. intros g Hin. cbn.
    revert g Hin. apply Forall_forall. by apply fill_all_flat. }
  rewrite (populateGrids_plain querySelector parse_markup Hok q)
    by (by rewrite ?Hcd).
  unfold location_hash. rewrite Hh, Hcd. fold (location_hash p).
  fold entries. fold t. f_equal.
  assert (reset_expand_btns
            (set_grids (foldl fill_one (grids q) entries) q) = q) as ->.
  { rewrite reset_expand_btns_eq.
    assert (collapse_grid <$> foldl fill_one (grids q) entries = grids q)
      as Hgrids.
    { rewrite Hg. by apply fill_again. }
    assert (collapse_btn <$> other_btns q = other_btns q) as Hbtns.
    { rewrite Hb, <- list_fmap_compose. apply list_fmap_ext.
      intros i b _. apply collapse_btn_idem. }
    clear Hq Hg Hb Hcd Hh Hfq. destruct q as [d m gs bs h cd co].
    cbn [grids other_btns set_other_btns set_grids navdom main_scrollTop
         history contentData console] in *.
    by rewrite Hgrids, Hbtns. }
  apply showSection_false_fixed.
  - unfold q. rewrite navdom_showSection.
    apply foldl_twice; [apply show_one_comm | apply show_one_idem].
  - intros _. unfold q. rewrite showSection_scrollTop.
    rewrite (recognized_truthy t) by apply initial_section_recognized.
    destruct (main_scrollTop _); auto.
Qed.

(** X23.  A top-level JSON array passes the guard of [populateGrids]
    like an object: its elements are entries keyed by their decimal
    index, which goes into the selector as it is.  So when the elements
    that are arrays join, without raising, to markup that holds no grid,
    and the grids of the page do not nest, the grid whose
    [data-section] is the index of such an element receives that
    element's fragments joined. *)
Theorem populateGrids_array_content (p : Page) (items xs : list JValue)
    (i j : nat) (g : Grid) :
  selector_engine_ok querySelector →
  contentData p = JArray items →
  items !! i = Some (JArray xs) →
  first_grid (pretty i) (grids p) = Some (j, g) →
  joinable (Object_entries (contentData p)) →
  flat (grids p) →
  ∃ p' g', populateGrids p = Normal p' ∧
           grids p' !! j = Some g' ∧
           grid_section g' = pretty i ∧
           Array_join "" xs = Some (grid_innerHTML g').
Proof.
  intros Hok Hcd Hi Hq Hj Hf.
  assert (NoDup (Object_entries (contentData p)).*1) as Hnd
    by (rewrite Hcd; apply indices_NoDup).
  assert (plain_keys (Object_entries (contentData p))) as Hk
    by (rewrite Hcd; apply plain_keys_indices).
  assert ((pretty i, JArray xs) ∈ Object_entries (contentData p)) as Hin.
  { rewrite Hcd. cbn [Object_entries]. apply (list_elem_of_lookup_2 _ i).
    by rewrite list_lookup_imap, Hi. }
  eexists. eexists.
  split; [apply (populateGrids_plain querySelector parse_markup Hok p);
          first [done | by rewrite Hcd]|].
  rewrite (proj1 (showSection_frame _ _ _)), reset_expand_btns_eq.
  cbn [grids set_other_btns set_grids].
  assert (grids p !! j = Some g ∧ grid_section g = pretty i) as [Hg Hs].
  { unfold first_grid in Hq.
    by apply list_find_Some in Hq as (? & ? & _). }
  rewrite list_lookup_fmap, (fill_all_lookup _ _ _ j g Hnd Hg).
  unfold populated. rewrite Hs, Hq.
  cbn [fmap option_fmap option_map fst]. rewrite decide_True by done.
  destruct (Hj _ _ Hin) as (html & Hjoin & _).
  apply (array_entry_Some _ (pretty i) xs Hnd) in Hin. rewrite Hin.
  split; [done|]. cbn. unfold join_text. by rewrite Hjoin.
Qed.

End ContentLoaderFurther.

Lemma example_cards_plain_keys :
  plain_keys (Object_entries (contentData example_page_btns)).
Proof. decide_by_computation. Qed.

Lemma example_cards_joins :
  ∀ k xs, (k, JArray xs) ∈ Object_entries (contentData example_page_btns) →
          is_Some (Array_join "" xs).
Proof. intros k xs H. entry_cases H. Qed.

Lemma example_cards_plain : plain_content example_parser example_page_btns.
Proof.
  split_and!; [decide_by_computation| |decide_by_computation].
  apply example_parser_joinable, example_cards_joins.
Qed.

Lemma populateGrids_collapses_buttons_witness :
  ∃ p', populateGrids strict_engine example_parser example_page_btns
        = Normal p' ∧
        Forall (λ b, btn_attrs b !! "aria-expanded" = Some "false")
               (expand_btns p').
Proof.
  destruct (populateGrids_collapses_buttons strict_engine example_parser
              example_page_btns eq_refl eq_refl) as [Hall Hret].
  destruct (Hret strict_engine_ok example_cards_plain_keys example_cards_joins)
    as [p' Hp'].
  exists p'. split; [exact Hp' | exact (Hall p' Hp')].
Defined.

Lemma populateGrids_leaves_alone_witness :
  contentData (completion_state
                 (populateGrids strict_engine example_parser example_page_btns))
  = example_cards_content.
Proof.
  exact (proj1 (populateGrids_leaves_alone strict_engine example_parser
                  example_page_btns strict_engine_ok example_cards_plain_keys)).
Defined.

Lemma loadContent_success_witness :
  contentData (loadContent strict_engine example_parser
                 (FetchResponse true "OK" (Some example_cards_content))
                 (example_page "" JNull))
  = example_cards_content.
Proof.
  exact (proj1 (loadContent_success strict_engine example_parser "OK"
                  example_cards_content (example_page "" JNull)
                  strict_engine_ok example_cards_plain_keys)).
Defined.

Lemma example_cards_keys :
  NoDup (Object_entries (contentData example_page_btns)).*1.
Proof. decide_by_computation. Qed.

Lemma populateGrids_idempotent_witness :
  ∃ p', populateGrids strict_engine example_parser example_page_btns
        = Normal p' ∧
        populateGrids strict_engine example_parser p' = Normal p'.
Proof.
  exact (populateGrids_idempotent strict_engine example_parser
           example_page_btns strict_engine_ok example_cards_keys
           example_cards_plain).
Defined.

Lemma indexed_page_joinable :
  joinable example_parser (Object_entries (contentData indexed_page)).
Proof.
  apply example_parser_joinable. intros k xs H. entry_cases H.
Qed.

Lemma indexed_page_flat : flat (grids indexed_page).
Proof. decide_by_computation. Qed.

Lemma populateGrids_array_content_witness :
  ∃ p' g', populateGrids strict_engine example_parser indexed_page = Normal p' ∧
           grids p' !! 0 = Some g' ∧
           grid_section g' = "0" ∧
           Array_join "" [ JString "<p>x</p>" ] = Some (grid_innerHTML g').
Proof.
  exact (populateGrids_array_content strict_engine example_parser indexed_page
           [ JArray [ JString "<p>x</p>" ] ] [ JString "<p>x</p>" ]
           0 0 (mkGrid "0" "" [] 0) strict_engine_ok eq_refl eq_refl eq_refl
           indexed_page_joinable indexed_page_flat).
Defined.

(** The card loaded into the grid of [compute] brings its expand button,
    collapsed like the one the page had. *)
Example populate_example_buttons :
  (expand_btns ∘ completion_state)
    (populateGrids strict_engine example_parser example_page_btns)
  = [ mkExpandBtn "Read Less" {[ "aria-expanded" := "false" ]};
      mkExpandBtn "Read More" {[ "aria-expanded" := "false" ]} ].
Proof. by vm_compute. Qed.
